(** * The fixed-dimension vector class of quiz 3 and its reference check

    A shallow embedding of [vector.hpp] (class [Vector<N>], the free
    functions [norm], [inner], [cross], [det], the left scalar product, the
    stream insertion operator, [diff] and [check]) and of the quiz program
    ([test] and [main]).

    - A [double] is a member of a type [D] carrying the operations the
      source applies to doubles ([Scalar]).  Two instances are given: the
      real numbers (exact arithmetic) and IEEE-754 binary64.
    - The array [double u[N]] is a list of cells; a cell that was never
      assigned is [None] (indeterminate).
    - [assert] is live (a build without NDEBUG); a failed assertion, and an
      access the language leaves undefined, are two distinct outcomes.
    - [cout] is the list of items inserted so far, threaded explicitly.
    - A finite double denotes a rational number ([value]); an operation is
      exact on given operands when its result is finite and denotes the
      exact result on the numbers the operands denote. *)

From Stdlib Require Import ZArith QArith Qcanon Reals Lra Lia.
From Stdlib Require Import Floats.PrimFloat Floats.SpecFloat Floats.FloatOps.
From Stdlib Require Import Floats.FloatAxioms.
From stdpp Require Import base list strings.

#[local] Open Scope Z_scope.

(** ** Outcomes of a computation *)

Inductive outcome (A : Type) : Type :=
| Ok (a : A)      (* normal completion *)
| AssertFail      (* an [assert] failed: the process aborts *)
| Undefined.      (* undefined behaviour: array subscript out of bounds,
                     or a read of an indeterminate value *)

Arguments Ok {A} a.
Arguments AssertFail {A}.
Arguments Undefined {A}.

#[global] Instance outcome_ret : MRet outcome := @Ok.

#[global] Instance outcome_bind : MBind outcome := λ A B f m,
  match m with
  | Ok a => f a
  | AssertFail => AssertFail
  | Undefined => Undefined
  end.

(** ** The arithmetic of [double] *)

Class Scalar (D : Type) : Type := {
  lit : Z → nat → D;        (* the decimal literal m * 10^-k *)
  dadd : D → D → D;         (* x + y *)
  dsub : D → D → D;         (* x - y *)
  dmul : D → D → D;         (* x * y *)
  dsqrt : D → D;            (* sqrt(x) *)
  dfabs : D → D;            (* fabs(x) *)
  dlt : D → D → bool        (* x < y *)
}.

(** ** Items inserted into an output stream *)

Inductive token (D : Type) : Type :=
| Str (s : string)   (* a string literal *)
| Num (x : D)        (* a double *)
| Int (n : Z)        (* an int *)
| Endl.              (* endl *)

Arguments Str {D} s.
Arguments Num {D} x.
Arguments Int {D} n.
Arguments Endl {D}.

(** ** class Vector *)

(* template<int N> class Vector, with  protected: double u[N];
   the dimension is part of the type, as in the source. *)
Record Vector (D : Type) (N : nat) : Type := mkVector { u : list (option D) }.

Arguments mkVector {D N} u.
Arguments u {D N} v.

Section WithScalar.

Context {D : Type} `{Scalar D}.

Definition ostream : Type := list (token D).

(* A reference to a coordinate (double&, const double&) is the position of
   its cell in the array of the vector it points into. *)
Definition load {N} (v : Vector D N) (r : nat) : outcome D :=
  match u v !! r with
  | Some (Some x) => Ok x
  | _ => Undefined
  end.

Definition store {N} (v : Vector D N) (r : nat) (x : D) : outcome (Vector D N) :=
  if bool_decide (r < length (u v))%nat
  then Ok (mkVector (<[r := Some x]> (u v)))
  else Undefined.

(* The built-in subscript a[i] on the member array, used inside the class:
   no assertion, undefined outside the array. *)
Definition subscript (a : list (option D)) (i : Z) : outcome nat :=
  if (0 <=? i) && (i <? Z.of_nat (length a)) then Ok (Z.to_nat i) else Undefined.

(* for( int i = i0; i < i0 + n; i++ ) body, as the n iterations it makes.
   The loops of the source run i from 0 to N, which is an int itself, so the
   counter never wraps. *)
Fixpoint for_loop {S : Type} (n : nat) (i : Z)
    (body : Z → S → outcome S) (s : S) : outcome S :=
  match n with
  | O => Ok s
  | S n' => s' ← body i s; for_loop n' (i + 1) body s'
  end.

(* template<int N>: the functions below are generic in the dimension N; an
   array type needs N >= 0. *)

(* Vector() {} *)
Definition Vector_new {N : nat} : Vector D N := mkVector (replicate N None).

(* u[i] as an rvalue and u[i] = x, on the member array *)
Definition member_read {N : nat} (this : Vector D N) (i : Z) : outcome D :=
  r ← subscript (u this) i; load this r.

Definition member_assign {N : nat} (this : Vector D N) (i : Z) (x : D)
    : outcome (Vector D N) :=
  r ← subscript (u this) i; store this r x.

(* Vector( initializer_list<double> coords ): the range-for over coords *)
Fixpoint Vector_init_loop {N : nat} (coords : list D) (i : Z) (this : Vector D N)
    : outcome (Vector D N) :=
  match coords with
  | [] => Ok this
  | c :: rest =>
      this' ← member_assign this i c;
      Vector_init_loop rest (i + 1) this'
  end.

Definition Vector_init (N : nat) (coords : list D) : outcome (Vector D N) :=
  Vector_init_loop coords 0 Vector_new.

(* double& operator[]( int i ) *)
Definition operator_index {N : nat} (this : Vector D N) (i : Z) : outcome nat :=
  if (i >=? 0) && (i <? Z.of_nat N) then Ok (Z.to_nat i) else AssertFail.

(* const double& operator[]( int i ) const *)
Definition operator_index_const {N : nat} (this : Vector D N) (i : Z) : outcome nat :=
  if (i >=? 0) && (i <? Z.of_nat N) then Ok (Z.to_nat i) else AssertFail.

(* v[i] as an rvalue (v const, v not const) and v[i] = x *)
Definition read_const {N : nat} (v : Vector D N) (i : Z) : outcome D :=
  r ← operator_index_const v i; load v r.

Definition read {N : nat} (v : Vector D N) (i : Z) : outcome D :=
  r ← operator_index v i; load v r.

Definition assign {N : nat} (v : Vector D N) (i : Z) (x : D) : outcome (Vector D N) :=
  r ← operator_index v i; store v r x.

(* int dimension() *)
Definition dimension {N : nat} (this : Vector D N) : Z := Z.of_nat N.

(* Vector<N> operator+( const Vector<N>& v ) *)
Definition operator_plus {N : nat} (this v : Vector D N) : outcome (Vector D N) :=
  for_loop N 0 (λ i sum,
    x ← member_read this i;
    y ← read_const v i;
    assign sum i (dadd x y)) Vector_new.

(* Vector<N> operator-( const Vector<N>& v ) *)
Definition operator_minus {N : nat} (this v : Vector D N) : outcome (Vector D N) :=
  for_loop N 0 (λ i diff,
    x ← member_read this i;
    y ← read_const v i;
    assign diff i (dsub x y)) Vector_new.

(* Vector<N> operator*( double a ) *)
Definition operator_times {N : nat} (this : Vector D N) (a : D) : outcome (Vector D N) :=
  for_loop N 0 (λ i product,
    x ← member_read this i;
    assign product i (dmul a x)) Vector_new.

(* template<int N> double norm( const Vector<N>& u ) *)
Definition norm {N : nat} (u : Vector D N) : outcome D :=
  sum ← for_loop N 0 (λ i sum,
    x ← read_const u i;
    y ← read_const u i;
    Ok (dadd sum (dmul x y))) (lit 0 0);
  let m := dsqrt sum in
  Ok m.

(* template<int N> double inner( const Vector<N>& u, const Vector<N>& v ) *)
Definition inner {N : nat} (u v : Vector D N) : outcome D :=
  for_loop N 0 (λ i sum,
    x ← read_const u i;
    y ← read_const v i;
    Ok (dadd sum (dmul x y))) (lit 0 0).

(* template<int N> Vector<N> operator*( double a, const Vector<N>& u ) *)
Definition operator_times_left {N : nat} (a : D) (u : Vector D N) : outcome (Vector D N) :=
  for_loop N 0 (λ i product,
    x ← read_const u i;
    assign product i (dmul a x)) Vector_new.

(* template<int N> ostream& operator<<( ostream& os, const Vector<N>& u ) *)
Definition operator_shl {N : nat} (os : ostream) (u : Vector D N) : outcome ostream :=
  os ← for_loop N 0 (λ i os,
    x ← read_const u i;
    Ok (os ++ [Num x; Str " "])) (os ++ [Str "[ "]);
  Ok (os ++ [Str "]"]).

(* double diff( double x, double y ) *)
Definition diff (x y : D) : D := dfabs (dsub x y).

(* template<int N> double diff( Vector<N> u, Vector<N> v ) *)
Definition diff_Vector {N : nat} (u v : Vector D N) : outcome D :=
  for_loop N 0 (λ i sum,
    x ← read u i;
    y ← read v i;
    Ok (dadd sum (diff x y))) (lit 0 0).

(* [v] is a Vector<N> all of whose coordinates were assigned, and [xs] are
   those coordinates. *)
Definition holds {N : nat} (v : Vector D N) (xs : list D) : Prop :=
  u v = Some <$> xs ∧ length xs = N.

(* The sum of the pairwise products of two coordinate lists, accumulated from
   the literal 0 in index order. *)
Definition dot (xs ys : list D) : D :=
  foldl (λ sum p, dadd sum (dmul p.1 p.2)) (lit 0 0) (zip xs ys).

(* The sum of the distances between paired coordinates. *)
Definition distance (xs ys : list D) : D :=
  foldl (λ sum p, dadd sum (diff p.1 p.2)) (lit 0 0) (zip xs ys).

(* The items a vector with coordinates xs is printed as. *)
Definition shown (xs : list D) : ostream :=
  Str "[ " :: foldr (λ x os, Num x :: Str " " :: os) [Str "]"] xs.

(* Vector<3> cross( const Vector<3>& u, const Vector<3>& v ) *)
Definition cross (u v : Vector D 3) : outcome (Vector D 3) :=
  let product := Vector_new in
  u1 ← read_const u 1; v2 ← read_const v 2;
  u2 ← read_const u 2; v1 ← read_const v 1;
  product ← assign product 0 (dsub (dmul u1 v2) (dmul u2 v1));
  u2 ← read_const u 2; v0 ← read_const v 0;
  u0 ← read_const u 0; v2 ← read_const v 2;
  product ← assign product 1 (dsub (dmul u2 v0) (dmul u0 v2));
  u0 ← read_const u 0; v1 ← read_const v 1;
  u1 ← read_const u 1; v0 ← read_const v 0;
  product ← assign product 2 (dsub (dmul u0 v1) (dmul u1 v0));
  Ok product.

(* double det( const Vector<3>& u, const Vector<3>& v, const Vector<3> w ) *)
Definition det (u v w : Vector D 3) : outcome D :=
  u0 ← read_const u 0;
  v1 ← read_const v 1; w2 ← read_const w 2;
  v2 ← read_const v 2; w1 ← read_const w 1;
  u1 ← read_const u 1;
  v2' ← read_const v 2; w0 ← read_const w 0;
  v0 ← read_const v 0; w2' ← read_const w 2;
  u2 ← read_const u 2;
  v0' ← read_const v 0; w1' ← read_const w 1;
  v1' ← read_const v 1; w0' ← read_const w 0;
  let m :=
    dadd (dadd (dmul u0 (dsub (dmul v1 w2) (dmul v2 w1)))
               (dmul u1 (dsub (dmul v2' w0) (dmul v0 w2'))))
         (dmul u2 (dsub (dmul v0' w1') (dmul v1' w0'))) in
  Ok m.

(** ** The reference check *)

(* What check<T> asks of T: the overloads of diff and of operator<<. *)
Class Checkable (T : Type) : Type := {
  diff_of : T → T → outcome D;
  shl_of : ostream → T → outcome ostream
}.

#[global] Instance Checkable_double : Checkable D := {|
  diff_of x y := Ok (diff x y);
  shl_of os x := Ok (os ++ [Num x])
|}.

#[global] Instance Checkable_Vector {N} : Checkable (Vector D N) := {|
  diff_of := diff_Vector;
  shl_of := operator_shl
|}.

(* template<typename T> int check( T val, T ref ) *)
Definition check {T} `{Checkable T} (cout : ostream) (val ref : T)
    : outcome (ostream * Z) :=
  let tolerance := lit 1 5 in
  cout ← shl_of (cout ++ [Str "YOUR CODE: "]) val;
  cout ← shl_of (cout ++ [Endl; Str "REFERENCE: "]) ref;
  let cout := cout ++ [Endl; Str "  CORRECT? "] in
  d ← diff_of val ref;
  if dlt d tolerance
  then Ok (cout ++ [Str "YES"; Endl; Endl], 1)
  else Ok (cout ++ [Str "NO"; Endl; Endl], 0).

(* void test() *)
Definition test (cout : ostream) : outcome ostream :=
  u ← Vector_init 3 [lit 1 0; lit 2 0; lit 3 0];
  v ← Vector_init 3 [lit 3 0; lit 1 0; lit 2 0];
  w ← Vector_init 3 [lit 5 0; lit 3 0; lit 7 0];
  let a := lit 4 0 in
  cout ← operator_shl (cout ++ [Str "u: "]) u;
  cout ← operator_shl (cout ++ [Endl; Str "v: "]) v;
  cout ← operator_shl (cout ++ [Endl; Str "w: "]) w;
  let cout := cout ++ [Endl; Str "a: "; Num a; Endl; Endl] in
  let nPassed := 0 in
  let cout := cout ++ [Str "u+v (addition)"; Endl] in
  val ← operator_plus u v; ref ← Vector_init 3 [lit 4 0; lit 3 0; lit 5 0];
  '(cout, r) ← check cout val ref;
  let nPassed := nPassed + r in
  let cout := cout ++ [Str "u-v (subtraction)"; Endl] in
  val ← operator_minus u v; ref ← Vector_init 3 [lit (-2) 0; lit 1 0; lit 1 0];
  '(cout, r) ← check cout val ref;
  let nPassed := nPassed + r in
  let cout := cout ++ [Str "u*a (right scalar multiplication)"; Endl] in
  val ← operator_times u a; ref ← Vector_init 3 [lit 4 0; lit 8 0; lit 12 0];
  '(cout, r) ← check cout val ref;
  let nPassed := nPassed + r in
  let cout := cout ++ [Str "norm(u) (Euclidean norm)"; Endl] in
  val ← norm u;
  '(cout, r) ← check cout val (lit 374166 5);
  let nPassed := nPassed + r in
  let cout := cout ++ [Str "inner(u,v) (inner product)"; Endl] in
  val ← inner u v;
  '(cout, r) ← check cout val (lit 11 0);
  let nPassed := nPassed + r in
  let cout := cout ++ [Str "cross(u,v) (cross product)"; Endl] in
  val ← cross u v; ref ← Vector_init 3 [lit 1 0; lit 7 0; lit (-5) 0];
  '(cout, r) ← check cout val ref;
  let nPassed := nPassed + r in
  let cout := cout ++ [Str "det(u,v,w) (determinant)"; Endl] in
  val ← det u v w;
  '(cout, r) ← check cout val (lit (-9) 0);
  let nPassed := nPassed + r in
  let cout := cout ++ [Str "a*u (left scalar multiplication)"; Endl] in
  val ← operator_times_left a u; ref ← Vector_init 3 [lit 4 0; lit 8 0; lit 12 0];
  '(cout, r) ← check cout val ref;
  let nPassed := nPassed + r in
  Ok (cout ++ [Str "PASSED "; Int nPassed; Str " OF 8 TESTS"; Endl]).

(* int main(): no parameters; the result is the stream and the exit code *)
Definition main (cout : ostream) : outcome (ostream * Z) :=
  cout ← test cout;
  Ok (cout, 0).

(** ** Reference statements *)

(* The coordinates cross returns and the value det returns, on coordinate
   lists of length 3. *)
Definition cross_of (xs ys : list D) : list D :=
  match xs, ys with
  | [x0; x1; x2], [y0; y1; y2] =>
      [dsub (dmul x1 y2) (dmul x2 y1);
       dsub (dmul x2 y0) (dmul x0 y2);
       dsub (dmul x0 y1) (dmul x1 y0)]
  | _, _ => []
  end.

Definition det_of (xs ys zs : list D) : D :=
  match xs, ys, zs with
  | [x0; x1; x2], [y0; y1; y2], [z0; z1; z2] =>
      dadd (dadd (dmul x0 (dsub (dmul y1 z2) (dmul y2 z1)))
                 (dmul x1 (dsub (dmul y2 z0) (dmul y0 z2))))
           (dmul x2 (dsub (dmul y0 z1) (dmul y1 z0)))
  | _, _, _ => lit 0 0
  end.

(* The constants of test(). *)
Definition test_u : list D := [lit 1 0; lit 2 0; lit 3 0].
Definition test_v : list D := [lit 3 0; lit 1 0; lit 2 0].
Definition test_w : list D := [lit 5 0; lit 3 0; lit 7 0].
Definition test_a : D := lit 4 0.

(* The reference values of test(), as equations between what an operation
   returns and the reference it is checked against; the norm is compared
   within the tolerance of check. *)
Definition reference_values : Prop :=
  ∃ u v w : Vector D 3,
    Vector_init 3 test_u = Ok u ∧
    Vector_init 3 test_v = Ok v ∧
    Vector_init 3 test_w = Ok w ∧
    operator_plus u v = Vector_init 3 [lit 4 0; lit 3 0; lit 5 0] ∧
    operator_minus u v = Vector_init 3 [lit (-2) 0; lit 1 0; lit 1 0] ∧
    operator_times u test_a = Vector_init 3 [lit 4 0; lit 8 0; lit 12 0] ∧
    (∃ m, norm u = Ok m ∧ dlt (diff m (lit 374166 5)) (lit 1 5) = true) ∧
    inner u v = Ok (lit 11 0) ∧
    cross u v = Vector_init 3 [lit 1 0; lit 7 0; lit (-5) 0] ∧
    det u v w = Ok (lit (-9) 0) ∧
    operator_times_left test_a u = Vector_init 3 [lit 4 0; lit 8 0; lit 12 0].

(* What one call of check adds to the stream. *)
Definition report (val ref : ostream) (pass : bool) : ostream :=
  [Str "YOUR CODE: "] ++ val ++ [Endl; Str "REFERENCE: "] ++ ref
    ++ [Endl; Str "  CORRECT? "; Str (if pass then "YES" else "NO"); Endl; Endl].

Definition passes (d : D) : bool := dlt d (lit 1 5).

(* The eight checks of test(): title, computed value and reference value as
   printed, and whether the check passes. *)
Definition test_checks : list (string * ostream * ostream * bool) :=
  let sum := zip_with dadd test_u test_v in
  let difference := zip_with dsub test_u test_v in
  let right := dmul test_a <$> test_u in
  let length := dsqrt (dot test_u test_u) in
  let product := dot test_u test_v in
  let normal := cross_of test_u test_v in
  let volume := det_of test_u test_v test_w in
  let left := dmul test_a <$> test_u in
  let r1 := [lit 4 0; lit 3 0; lit 5 0] in
  let r2 := [lit (-2) 0; lit 1 0; lit 1 0] in
  let r3 := [lit 4 0; lit 8 0; lit 12 0] in
  let r4 := lit 374166 5 in
  let r5 := lit 11 0 in
  let r6 := [lit 1 0; lit 7 0; lit (-5) 0] in
  let r7 := lit (-9) 0 in
  let r8 := [lit 4 0; lit 8 0; lit 12 0] in
  [ ("u+v (addition)", shown sum, shown r1, passes (distance sum r1));
    ("u-v (subtraction)", shown difference, shown r2,
       passes (distance difference r2));
    ("u*a (right scalar multiplication)", shown right, shown r3,
       passes (distance right r3));
    ("norm(u) (Euclidean norm)", [Num length], [Num r4],
       passes (diff length r4));
    ("inner(u,v) (inner product)", [Num product], [Num r5],
       passes (diff product r5));
    ("cross(u,v) (cross product)", shown normal, shown r6,
       passes (distance normal r6));
    ("det(u,v,w) (determinant)", [Num volume], [Num r7],
       passes (diff volume r7));
    ("a*u (left scalar multiplication)", shown left, shown r8,
       passes (distance left r8)) ]%string.

Definition test_header : ostream :=
  [Str "u: "] ++ shown test_u ++ [Endl; Str "v: "] ++ shown test_v
    ++ [Endl; Str "w: "] ++ shown test_w
    ++ [Endl; Str "a: "; Num test_a; Endl; Endl].

Definition nPassed_of (checks : list (string * ostream * ostream * bool)) : Z :=
  Z.of_nat (length (filter (λ c, c.2 = true) checks)).

(* Everything the program prints. *)
Definition transcript : ostream :=
  test_header
    ++ flat_map (λ c, [Str c.1.1.1; Endl] ++ report c.1.1.2 c.1.2 c.2) test_checks
    ++ [Str "PASSED "; Int (nPassed_of test_checks); Str " OF 8 TESTS"; Endl].

End WithScalar.

(** ** Two arithmetics *)

(** Exact arithmetic: the real numbers. *)

#[global] Instance Rlt_decision (x y : R) : Decision (x < y)%R := Rlt_dec x y.

#[global] Instance exact_real : Scalar R := {|
  lit m k := (IZR m / 10 ^ k)%R;
  dadd := Rplus;
  dsub := Rminus;
  dmul := Rmult;
  dsqrt := R_sqrt.sqrt;
  dfabs := Rabs;
  dlt x y := bool_decide (x < y)%R
|}.

(** IEEE-754 binary64, round to nearest even, each operation rounded once:
    what double arithmetic is on the usual targets. *)

(* the conversion of an integer constant: exact below 2^53 *)
Fixpoint float_of_positive (p : positive) : float :=
  match p with
  | xH => 1%float
  | xO q => PrimFloat.mul 2%float (float_of_positive q)
  | xI q => PrimFloat.add (PrimFloat.mul 2%float (float_of_positive q)) 1%float
  end.

Definition float_of_Z (z : Z) : float :=
  match z with
  | Z0 => 0%float
  | Zpos p => float_of_positive p
  | Zneg p => PrimFloat.opp (float_of_positive p)
  end.

(* A decimal literal denotes the double nearest to its value: for m and 10^k
   below 2^53 that is the correctly rounded quotient. *)
#[global] Instance binary64 : Scalar float := {|
  lit m k := PrimFloat.div (float_of_Z m) (float_of_Z (10 ^ Z.of_nat k));
  dadd := PrimFloat.add;
  dsub := PrimFloat.sub;
  dmul := PrimFloat.mul;
  dsqrt := PrimFloat.sqrt;
  dfabs := PrimFloat.abs;
  dlt := PrimFloat.ltb
|}.

(* binary64 with a comparison that never holds: an arithmetic under which
   every check of test() fails. *)
Definition never_less : Scalar float := {|
  lit := lit (Scalar := binary64);
  dadd := PrimFloat.add;
  dsub := PrimFloat.sub;
  dmul := PrimFloat.mul;
  dsqrt := PrimFloat.sqrt;
  dfabs := PrimFloat.abs;
  dlt _ _ := false
|}.

(* Vectors of doubles around 2^53 = 9007199254740992, where consecutive
   doubles are 2 apart (4 apart from 2^54 = 18014398509481984 on). *)
Definition rounding_a : Vector float 3 := mkVector [Some 1; Some 1; Some 0]%float.
Definition rounding_b : Vector float 3 := mkVector [Some 0; Some 1; Some 1]%float.
Definition rounding_c : Vector float 3 :=
  mkVector [Some 9007199254740992; Some (-1); Some 1]%float.
Definition rounding_d : Vector float 3 :=
  mkVector [Some 1; Some (-1); Some 9007199254740992]%float.


(** ** The numbers that doubles denote *)

(* The rational number a finite double denotes; None for an infinity or a
   NaN.  Rationals are kept in lowest terms, so that two doubles denote the
   same number exactly when their values are equal. *)
Class Valued (D : Type) : Type := value : D → option Qc.

(* binary64: sign, mantissa and exponent as the kernel decodes them *)
Definition float_value (f : float) : option Qc :=
  match Prim2SF f with
  | S754_zero _ => Some (Q2Qc 0)
  | S754_finite s m e =>
      Some (Q2Qc (inject_Z (if s then Zneg m else Zpos m) * Qpower 2 e))
  | S754_infinity _ => None
  | S754_nan => None
  end.

#[global] Instance binary64_value : Valued float := float_value.

Section WithValue.

Context {D : Type} `{Scalar D} `{Valued D}.

Definition finite (x : D) : bool :=
  match value x with
  | Some _ => true
  | None => false
  end.

(* x and y are finite and denote the same number (x == y in C++) *)
Definition same_number (x y : D) : Prop :=
  ∃ q, value x = Some q ∧ value y = Some q.

(* x and y are finite and denote opposite numbers (x == -y in C++) *)
Definition opposite_numbers (x y : D) : Prop :=
  ∃ q, value x = Some q ∧ value y = Some (- q)%Qc.

(* x is finite and denotes the number q *)
Definition denotes (x : D) (q : Qc) : bool :=
  match value x with
  | Some a => Qc_eq_bool a q
  | None => false
  end.

(* The operation op is exact on x and y: both are finite, and the result is
   finite and denotes qop of the numbers x and y denote: no rounding, no
   overflow, no NaN. *)
Definition exact2 (op : D → D → D) (qop : Qc → Qc → Qc) (x y : D) : bool :=
  match value x, value y, value (op x y) with
  | Some a, Some b, Some c => Qc_eq_bool c (qop a b)
  | _, _, _ => false
  end.

(* every coordinate-wise operation of zip_with op xs ys is exact *)
Definition exact_zip (op : D → D → D) (qop : Qc → Qc → Qc)
    (xs ys : list D) : bool :=
  forallb (λ p, exact2 op qop p.1 p.2) (zip xs ys).

(* every product s * x, x in xs, is exact *)
Definition exact_scale (s : D) (xs : list D) : bool :=
  forallb (exact2 dmul Qcmult s) xs.

(* the literal 0 denotes 0 *)
Definition exact_zero : bool :=
  match value (lit 0 0) with
  | Some q => Qc_eq_bool q 0
  | None => false
  end.

(* every step of  sum += x * y  over the pairs of l, from the accumulator
   acc on, is exact *)
Fixpoint exact_sum (acc : D) (l : list (D * D)) : bool :=
  match l with
  | [] => true
  | p :: rest =>
      exact2 dmul Qcmult p.1 p.2
      && exact2 dadd Qcplus acc (dmul p.1 p.2)
      && exact_sum (dadd acc (dmul p.1 p.2)) rest
  end.

(* every step of inner on coordinates xs and ys is exact *)
Definition exact_dot (xs ys : list D) : bool :=
  exact_zero && exact_sum (lit 0 0) (zip xs ys).

(* every step of  a * b - c * d  is exact *)
Definition exact_minor (a b c d : D) : bool :=
  exact2 dmul Qcmult a b && exact2 dmul Qcmult c d
  && exact2 dsub Qcminus (dmul a b) (dmul c d).

(* every step of cross on coordinates xs and ys is exact *)
Definition exact_cross (xs ys : list D) : bool :=
  match xs, ys with
  | [x0; x1; x2], [y0; y1; y2] =>
      exact_minor x1 y2 x2 y1 && exact_minor x2 y0 x0 y2
      && exact_minor x0 y1 x1 y0
  | _, _ => false
  end.

(* every step of det on coordinates xs, ys and zs is exact *)
Definition exact_det (xs ys zs : list D) : bool :=
  match xs, ys, zs with
  | [x0; x1; x2], [y0; y1; y2], [z0; z1; z2] =>
      let m0 := dsub (dmul y1 z2) (dmul y2 z1) in
      let m1 := dsub (dmul y2 z0) (dmul y0 z2) in
      let m2 := dsub (dmul y0 z1) (dmul y1 z0) in
      exact_minor y1 z2 y2 z1 && exact2 dmul Qcmult x0 m0
      && exact_minor y2 z0 y0 z2 && exact2 dmul Qcmult x1 m1
      && exact_minor y0 z1 y1 z0 && exact2 dmul Qcmult x2 m2
      && exact2 dadd Qcplus (dmul x0 m0) (dmul x1 m1)
      && exact2 dadd Qcplus (dadd (dmul x0 m0) (dmul x1 m1)) (dmul x2 m2)
  | _, _, _ => false
  end.

End WithValue.

(* The sign bit of a double is clear, or the double is a NaN: the doubles
   that do not compare less than zero and are not the negative zero. *)
Definition sign_clear (x : spec_float) : bool :=
  match x with
  | S754_nan => true
  | S754_zero s | S754_infinity s | S754_finite s _ _ => negb s
  end.

(* The vectors of the examples in the comments above cross and det. *)
Definition comment_N : Vector float 3 := mkVector [Some 0; Some 0; Some 1]%float.
Definition comment_u : Vector float 3 := mkVector [Some 2; Some 3; Some 0]%float.
Definition comment_e1 : Vector float 3 := mkVector [Some 1; Some 0; Some 0]%float.
Definition comment_e2 : Vector float 3 := mkVector [Some 0; Some 1; Some 0]%float.
Definition comment_e3 : Vector float 3 := mkVector [Some 0; Some 0; Some 2]%float.

(* The constants of test() as vectors of doubles. *)
Definition quiz_u : Vector float 3 := mkVector [Some 1; Some 2; Some 3]%float.
Definition quiz_v : Vector float 3 := mkVector [Some 3; Some 1; Some 2]%float.
Definition quiz_w : Vector float 3 := mkVector [Some 5; Some 3; Some 7]%float.

(* The constants of test() as vectors over exact arithmetic, the vector of
   the comment above operator[], and a 3-vector built from two coordinates,
   as in the comment above norm. *)
Definition exact_u : Vector R 3 := mkVector [Some 1; Some 2; Some 3]%R.
Definition exact_v : Vector R 3 := mkVector [Some 3; Some 1; Some 2]%R.
Definition exact_753 : Vector R 3 := mkVector [Some 7; Some 5; Some 3]%R.
Definition exact_34 : Vector R 3 := mkVector [Some 3; Some 4; None]%R.

(** * Properties *)

Section Generic.

Context {D : Type} `{Scalar D}.

(** ** Evaluation lemmas *)

Lemma bind_Ok {A B} (a : A) (k : A → outcome B) : (Ok a ≫= k) = k a.
Proof. reflexivity. Qed.

Lemma in_range_true (N : nat) (j : nat) :
  (j < N)%nat → (Z.of_nat j >=? 0) && (Z.of_nat j <? Z.of_nat N) = true.
Proof.
  intros Hj. apply andb_true_intro. split.
  - apply Z.geb_le. lia.
  - apply Z.ltb_lt. lia.
Qed.

Lemma operator_index_in_range {N} (v : Vector D N) (j : nat) :
  (j < N)%nat → operator_index v (Z.of_nat j) = Ok j.
Proof.
  intros Hj. unfold operator_index.
  rewrite in_range_true by assumption. by rewrite Nat2Z.id.
Qed.

Lemma operator_index_const_in_range {N} (v : Vector D N) (j : nat) :
  (j < N)%nat → operator_index_const v (Z.of_nat j) = Ok j.
Proof.
  intros Hj. unfold operator_index_const.
  rewrite in_range_true by assumption. by rewrite Nat2Z.id.
Qed.

Lemma subscript_in_range (a : list (option D)) (j : nat) :
  (j < length a)%nat → subscript a (Z.of_nat j) = Ok j.
Proof.
  intros Hj. unfold subscript.
  replace (0 <=? Z.of_nat j) with true by (symmetry; apply Z.leb_le; lia).
  replace (Z.of_nat j <? Z.of_nat (length a)) with true
    by (symmetry; apply Z.ltb_lt; lia).
  by rewrite Nat2Z.id.
Qed.

Lemma load_holds {N} (v : Vector D N) xs j x :
  holds v xs → xs !! j = Some x → load v j = Ok x.
Proof.
  intros [Hu _] Hx. unfold load.
  by rewrite Hu, list_lookup_fmap, Hx.
Qed.

Lemma read_const_holds {N} (v : Vector D N) xs j x :
  holds v xs → xs !! j = Some x → read_const v (Z.of_nat j) = Ok x.
Proof.
  intros Hv Hx. unfold read_const.
  rewrite operator_index_const_in_range.
  - apply (load_holds v xs j x Hv Hx).
  - destruct Hv as [_ <-]. by eapply lookup_lt_Some.
Qed.

Lemma read_holds {N} (v : Vector D N) xs j x :
  holds v xs → xs !! j = Some x → read v (Z.of_nat j) = Ok x.
Proof.
  intros Hv Hx. unfold read.
  rewrite operator_index_in_range.
  - apply (load_holds v xs j x Hv Hx).
  - destruct Hv as [_ <-]. by eapply lookup_lt_Some.
Qed.

Lemma member_read_holds {N} (v : Vector D N) xs j x :
  holds v xs → xs !! j = Some x → member_read v (Z.of_nat j) = Ok x.
Proof.
  intros Hv Hx. unfold member_read.
  rewrite subscript_in_range.
  - apply (load_holds v xs j x Hv Hx).
  - destruct Hv as [-> _]. rewrite length_fmap. by eapply lookup_lt_Some.
Qed.

(* Writing the first unassigned cell of a partly assigned array. *)
Lemma store_next {N} (pre : list D) (n : nat) (z : D) :
  store (N := N) (mkVector ((Some <$> pre) ++ replicate (S n) None))
        (length pre) z
  = Ok (mkVector ((Some <$> (pre ++ [z])) ++ replicate n None)).
Proof.
  unfold store. cbn [u].
  rewrite bool_decide_eq_true_2
    by (rewrite length_app, length_fmap, length_replicate; lia).
  do 2 f_equal.
  rewrite insert_app_r_alt by (rewrite length_fmap; lia).
  rewrite length_fmap, Nat.sub_diag, fmap_app, <- app_assoc.
  reflexivity.
Qed.

Lemma assign_next {N} (pre : list D) (n : nat) (z : D) :
  (length pre + S n)%nat = N →
  assign (N := N) (mkVector ((Some <$> pre) ++ replicate (S n) None))
         (Z.of_nat (length pre)) z
  = Ok (mkVector ((Some <$> (pre ++ [z])) ++ replicate n None)).
Proof.
  intros HN. unfold assign.
  rewrite operator_index_in_range by lia.
  apply store_next.
Qed.

Lemma member_assign_next {N} (pre : list D) (n : nat) (z : D) :
  member_assign (N := N) (mkVector ((Some <$> pre) ++ replicate (S n) None))
         (Z.of_nat (length pre)) z
  = Ok (mkVector ((Some <$> (pre ++ [z])) ++ replicate n None)).
Proof.
  unfold member_assign. cbn [u].
  rewrite subscript_in_range
    by (rewrite length_app, length_fmap, length_replicate; lia).
  apply store_next.
Qed.

Lemma member_assign_full {N} (pre : list D) (z : D) :
  member_assign (N := N) (mkVector (Some <$> pre)) (Z.of_nat (length pre)) z
  = Undefined.
Proof.
  unfold member_assign, subscript. cbn [u].
  rewrite length_fmap, Z.ltb_irrefl, andb_false_r. reflexivity.
Qed.

(** ** Loops *)

(* A loop whose i-th iteration assigns zs[i] to cell i of a fresh vector
   leaves the vector holding zs. *)
Lemma for_loop_fill_from {N} (body : Z → Vector D N → outcome (Vector D N))
    (post pre : list D) :
  (length pre + length post)%nat = N →
  (∀ j z s, (pre ++ post) !! j = Some z →
     body (Z.of_nat j) s = assign s (Z.of_nat j) z) →
  for_loop (length post) (Z.of_nat (length pre)) body
    (mkVector ((Some <$> pre) ++ replicate (length post) None))
  = Ok (mkVector (Some <$> (pre ++ post))).
Proof.
  revert pre. induction post as [|z post IH]; intros pre HN Hbody.
  - cbn. by rewrite !app_nil_r.
  - cbn [for_loop length].
    rewrite (Hbody (length pre) z) by apply list_lookup_middle, eq_refl.
    rewrite assign_next by (cbn in HN; lia).
    rewrite bind_Ok.
    replace (Z.of_nat (length pre) + 1) with (Z.of_nat (length (pre ++ [z])))
      by (rewrite length_app; cbn; lia).
    rewrite (cons_middle z pre post), app_assoc.
    apply IH.
    + rewrite length_app. cbn in *. lia.
    + intros j z' s Hj. apply Hbody.
      by rewrite (cons_middle z pre post), app_assoc.
Qed.

Lemma for_loop_fill {N} (body : Z → Vector D N → outcome (Vector D N))
    (zs : list D) :
  length zs = N →
  (∀ j z s, zs !! j = Some z → body (Z.of_nat j) s = assign s (Z.of_nat j) z) →
  for_loop N 0 body Vector_new = Ok (mkVector (Some <$> zs)).
Proof.
  intros HN Hbody. subst N.
  apply (for_loop_fill_from body zs []); [reflexivity | exact Hbody].
Qed.

(* A loop whose i-th iteration folds zs[i] into an accumulator. *)
Lemma for_loop_fold_from {S A} (f : S → A → S) (body : Z → S → outcome S)
    (post pre : list A) (s0 : S) :
  (∀ j z s, (pre ++ post) !! j = Some z → body (Z.of_nat j) s = Ok (f s z)) →
  for_loop (length post) (Z.of_nat (length pre)) body s0 = Ok (foldl f s0 post).
Proof.
  revert pre s0. induction post as [|z post IH]; intros pre s0 Hbody.
  - reflexivity.
  - cbn [for_loop length foldl].
    rewrite (Hbody (length pre) z) by apply list_lookup_middle, eq_refl.
    rewrite bind_Ok.
    replace (Z.of_nat (length pre) + 1) with (Z.of_nat (length (pre ++ [z])))
      by (rewrite length_app; cbn; lia).
    apply IH. intros j z' s Hj. apply Hbody.
    by rewrite (cons_middle z pre post), app_assoc.
Qed.

Lemma for_loop_fold {S A} (f : S → A → S) (body : Z → S → outcome S)
    (n : nat) (zs : list A) (s0 : S) :
  length zs = n →
  (∀ j z s, zs !! j = Some z → body (Z.of_nat j) s = Ok (f s z)) →
  for_loop n 0 body s0 = Ok (foldl f s0 zs).
Proof. intros <- Hbody. apply (for_loop_fold_from f body zs [] s0 Hbody). Qed.


(** ** What each operation returns on assigned vectors *)

Lemma operator_plus_holds {N} (a b : Vector D N) xs ys :
  holds a xs → holds b ys →
  operator_plus a b = Ok (mkVector (Some <$> zip_with dadd xs ys)).
Proof.
  intros Ha Hb. unfold operator_plus. apply for_loop_fill.
  - destruct Ha as [_ Ha], Hb as [_ Hb]. rewrite length_zip_with. lia.
  - intros j z s (x & y & -> & Hx & Hy)%lookup_zip_with_Some.
    by rewrite (member_read_holds a xs j x), (read_const_holds b ys j y).
Qed.

Lemma operator_minus_holds {N} (a b : Vector D N) xs ys :
  holds a xs → holds b ys →
  operator_minus a b = Ok (mkVector (Some <$> zip_with dsub xs ys)).
Proof.
  intros Ha Hb. unfold operator_minus. apply for_loop_fill.
  - destruct Ha as [_ Ha], Hb as [_ Hb]. rewrite length_zip_with. lia.
  - intros j z s (x & y & -> & Hx & Hy)%lookup_zip_with_Some.
    by rewrite (member_read_holds a xs j x), (read_const_holds b ys j y).
Qed.

Lemma operator_times_holds {N} (v : Vector D N) (a : D) xs :
  holds v xs → operator_times v a = Ok (mkVector (Some <$> (dmul a <$> xs))).
Proof.
  intros Hv. unfold operator_times. apply for_loop_fill.
  - destruct Hv as [_ Hv]. by rewrite length_fmap.
  - intros j z s Hz.
    apply list_lookup_fmap_Some in Hz as (x & -> & Hx).
    by rewrite (member_read_holds v xs j x).
Qed.

Lemma operator_times_left_holds {N} (a : D) (v : Vector D N) xs :
  holds v xs →
  operator_times_left a v = Ok (mkVector (Some <$> (dmul a <$> xs))).
Proof.
  intros Hv. unfold operator_times_left. apply for_loop_fill.
  - destruct Hv as [_ Hv]. by rewrite length_fmap.
  - intros j z s Hz.
    apply list_lookup_fmap_Some in Hz as (x & -> & Hx).
    by rewrite (read_const_holds v xs j x).
Qed.

Lemma holds_mkVector {N} (xs : list D) :
  length xs = N → holds (N := N) (mkVector (Some <$> xs)) xs.
Proof. intros HN. by split. Qed.

Lemma holds_eq {N} (v : Vector D N) xs :
  holds v xs → v = mkVector (Some <$> xs).
Proof. destruct v as [a]. intros [Ha _]. cbn in Ha. by subst a. Qed.

Lemma length_zip_same {A B} (xs : list A) (ys : list B) (N : nat) :
  length xs = N → length ys = N → length (zip xs ys) = N.
Proof. intros Hx Hy. rewrite length_zip. lia. Qed.

Lemma inner_holds {N} (a b : Vector D N) xs ys :
  holds a xs → holds b ys → inner a b = Ok (dot xs ys).
Proof.
  intros Ha Hb. unfold inner, dot.
  apply for_loop_fold; [apply length_zip_same; apply Ha || apply Hb|].
  intros j [x y] s [Hx Hy]%lookup_zip_Some.
  by rewrite (read_const_holds a xs j x), (read_const_holds b ys j y).
Qed.

Lemma norm_holds {N} (v : Vector D N) xs :
  holds v xs → norm v = Ok (dsqrt (dot xs xs)).
Proof.
  intros Hv. unfold norm, dot.
  rewrite (for_loop_fold (λ sum p, dadd sum (dmul p.1 p.2)) _ N (zip xs xs));
    [reflexivity | apply length_zip_same; apply Hv |].
  intros j [x y] s [Hx Hy]%lookup_zip_Some.
  assert (x = y) as <- by congruence.
  by rewrite (read_const_holds v xs j x).
Qed.

Lemma diff_Vector_holds {N} (a b : Vector D N) xs ys :
  holds a xs → holds b ys → diff_Vector a b = Ok (distance xs ys).
Proof.
  intros Ha Hb. unfold diff_Vector, distance.
  apply for_loop_fold; [apply length_zip_same; apply Ha || apply Hb|].
  intros j [x y] s [Hx Hy]%lookup_zip_Some.
  by rewrite (read_holds a xs j x), (read_holds b ys j y).
Qed.

(** ** The initializer-list constructor *)

Lemma Vector_init_loop_from {N} (coords pre : list D) (n : nat) :
  Vector_init_loop (N := N) coords (Z.of_nat (length pre))
    (mkVector ((Some <$> pre) ++ replicate n None))
  = if decide (length coords ≤ n)%nat
    then Ok (mkVector ((Some <$> (pre ++ coords))
                         ++ replicate (n - length coords) None))
    else Undefined.
Proof.
  revert pre n. induction coords as [|c rest IH]; intros pre n.
  - cbn. by rewrite app_nil_r, Nat.sub_0_r.
  - cbn [Vector_init_loop length]. destruct n as [|n].
    + cbn [replicate]. rewrite app_nil_r, member_assign_full.
      by rewrite decide_False by lia.
    + rewrite member_assign_next, bind_Ok.
      replace (Z.of_nat (length pre) + 1) with (Z.of_nat (length (pre ++ [c])))
        by (rewrite length_app; cbn; lia).
      rewrite IH, <- app_assoc. cbn [app Nat.sub].
      destruct (decide (length rest ≤ n)%nat).
      * by rewrite decide_True by lia.
      * by rewrite decide_False by lia.
Qed.

(** C10. The initializer-list constructor of Vector<N>, given k coordinates:
    when k <= N it returns the vector whose cells 0..k-1 hold the listed
    values in list order and whose other N-k cells are still indeterminate;
    when k > N it runs into undefined behaviour (a store past the end of the
    member array), with no assertion failure on the way. *)
Theorem Vector_init_coordinates (N : nat) (coords : list D) :
  ((length coords ≤ N)%nat →
     Vector_init N coords
     = Ok (mkVector ((Some <$> coords)
                       ++ replicate (N - length coords) None))) ∧
  ((N < length coords)%nat → Vector_init N coords = Undefined).
Proof.
  unfold Vector_init, Vector_new.
  pose proof (Vector_init_loop_from (N := N) coords [] N) as Hloop.
  cbn [length fmap list_fmap app] in Hloop. change (Z.of_nat 0) with 0 in Hloop.
  rewrite Hloop. split; intros Hk.
  - by rewrite decide_True by lia.
  - by rewrite decide_False by lia.
Qed.

Lemma Vector_init_holds (N : nat) (coords : list D) :
  length coords = N → Vector_init N coords = Ok (mkVector (Some <$> coords)).
Proof.
  intros Hk. unfold Vector_init, Vector_new.
  pose proof (Vector_init_loop_from (N := N) coords [] N) as Hloop.
  cbn [length fmap list_fmap app] in Hloop. change (Z.of_nat 0) with 0 in Hloop.
  rewrite Hloop, decide_True by lia.
  by rewrite Hk, Nat.sub_diag, app_nil_r.
Qed.

(** ** The bracket operators *)

(** C8. Both bracket operators of a Vector<N> fail their assertion exactly
    when i < 0 or i >= N; for 0 <= i < N they do not fail, they return the
    reference to cell i, and reading through it gives the coordinate stored
    in cell i. *)
Theorem operator_index_assertion {N} (v : Vector D N) (i : Z) :
  (operator_index v i = AssertFail ↔ i < 0 ∨ i >= Z.of_nat N) ∧
  (operator_index_const v i = AssertFail ↔ i < 0 ∨ i >= Z.of_nat N) ∧
  (0 <= i < Z.of_nat N →
     operator_index v i = Ok (Z.to_nat i) ∧
     operator_index_const v i = Ok (Z.to_nat i) ∧
     ∀ x, u v !! Z.to_nat i = Some (Some x) →
          read v i = Ok x ∧ read_const v i = Ok x).
Proof.
  unfold read, read_const, operator_index, operator_index_const, load.
  destruct (Z.geb_spec i 0) as [Hge|Hlt];
    destruct (Z.ltb_spec i (Z.of_nat N)) as [Hin|Hout]; cbn [andb];
    (split; [|split]);
    try (split; [intros Hfail; discriminate Hfail || lia
                |intros Hi; reflexivity || lia]).
  all: try (intros Hi; lia).
  intros _. do 2 (split; [reflexivity|]).
  intros x Hx. cbn. rewrite Hx. by split.
Qed.

(** ** Coordinate-wise operations *)

(** C2. For vectors a, b of the same dimension N (all coordinates assigned),
    a + b returns a vector whose coordinate i, for every 0 <= i < N, is
    a[i] + b[i]. *)
Theorem operator_plus_coordinates {N} (a b : Vector D N) xs ys :
  holds a xs → holds b ys →
  ∃ sum, operator_plus a b = Ok sum ∧
    ∀ i x y, 0 <= i < Z.of_nat N →
      read_const a i = Ok x → read_const b i = Ok y →
      read_const sum i = Ok (dadd x y).
Proof.
  intros Ha Hb. eexists. split; [by apply operator_plus_holds|].
  intros i x y Hi Hx Hy.
  assert (length (zip_with dadd xs ys) = N) as Hlen
    by (destruct Ha as [_ Ha], Hb as [_ Hb]; rewrite length_zip_with; lia).
  pose proof (holds_mkVector _ Hlen) as Hsum.
  rewrite <- (Z2Nat.id i) in Hx, Hy |- * by lia.
  destruct (lookup_lt_is_Some_2 xs (Z.to_nat i)) as [x' Hx'];
    [destruct Ha as [_ ->]; lia|].
  destruct (lookup_lt_is_Some_2 ys (Z.to_nat i)) as [y' Hy'];
    [destruct Hb as [_ ->]; lia|].
  rewrite (read_const_holds a xs _ x' Ha Hx') in Hx.
  rewrite (read_const_holds b ys _ y' Hb Hy') in Hy.
  injection Hx as <-. injection Hy as <-.
  apply (read_const_holds _ _ _ _ Hsum).
  apply lookup_zip_with_Some. by exists x', y'.
Qed.

(** C4. For every scalar a and every vector v of any dimension N (all
    coordinates assigned), the free function a * v and the member operator
    v * a return the same vector, whose coordinates are a * v[i]. *)
Theorem scalar_multiplication_commutes {N} (a : D) (v : Vector D N) xs :
  holds v xs →
  ∃ product, operator_times_left a v = Ok product ∧
    operator_times v a = Ok product ∧
    holds product (dmul a <$> xs).
Proof.
  intros Hv. eexists. split; [|split].
  - by apply operator_times_left_holds.
  - by apply operator_times_holds.
  - apply holds_mkVector. rewrite length_fmap. apply Hv.
Qed.

(** C5. For every vector v of any dimension N (all coordinates assigned),
    inner(v,v) returns the sum of the products v[i] * v[i], and norm(v)
    returns the square root of that same value. *)
Theorem norm_is_sqrt_inner {N} (v : Vector D N) xs :
  holds v xs →
  ∃ sum, inner v v = Ok sum ∧ sum = dot xs xs ∧ norm v = Ok (dsqrt sum).
Proof.
  intros Hv. exists (dot xs xs). split; [|split].
  - by apply inner_holds.
  - reflexivity.
  - by apply norm_holds.
Qed.

(** ** The functions on 3-vectors *)

Lemma cross_holds (a b : Vector D 3) xs ys :
  holds a xs → holds b ys →
  cross a b = Ok (mkVector (Some <$> cross_of xs ys)).
Proof.
  intros Ha Hb.
  destruct Ha as [Ha Hxs], Hb as [Hb Hys].
  destruct xs as [|x0 [|x1 [|x2 [|]]]]; try discriminate Hxs.
  destruct ys as [|y0 [|y1 [|y2 [|]]]]; try discriminate Hys.
  destruct a as [a], b as [b]. cbn in Ha, Hb. subst a b. reflexivity.
Qed.

Lemma det_holds (a b c : Vector D 3) xs ys zs :
  holds a xs → holds b ys → holds c zs →
  det a b c = Ok (det_of xs ys zs).
Proof.
  intros [Ha Hxs] [Hb Hys] [Hc Hzs].
  destruct xs as [|x0 [|x1 [|x2 [|]]]]; try discriminate Hxs.
  destruct ys as [|y0 [|y1 [|y2 [|]]]]; try discriminate Hys.
  destruct zs as [|z0 [|z1 [|z2 [|]]]]; try discriminate Hzs.
  destruct a as [a], b as [b], c as [c]. cbn in Ha, Hb, Hc. subst a b c.
  reflexivity.
Qed.

Lemma length_cross_of (xs ys : list D) :
  length xs = 3%nat → length ys = 3%nat → length (cross_of xs ys) = 3%nat.
Proof.
  intros Hxs Hys.
  destruct xs as [|x0 [|x1 [|x2 [|]]]]; try discriminate Hxs.
  destruct ys as [|y0 [|y1 [|y2 [|]]]]; try discriminate Hys.
  reflexivity.
Qed.

(** ** Printing and checking *)

Lemma shown_foldl (xs : list D) (os : ostream) :
  foldl (λ os x, os ++ [Num x; Str " "]) os xs ++ [Str "]"]
  = os ++ foldr (λ x os, Num x :: Str " " :: os) [Str "]"] xs.
Proof.
  revert os. induction xs as [|x xs IH]; intros os; cbn [foldl foldr].
  - reflexivity.
  - by rewrite IH, <- app_assoc.
Qed.

Lemma operator_shl_holds {N} (os : ostream) (v : Vector D N) xs :
  holds v xs → operator_shl os v = Ok (os ++ shown xs).
Proof.
  intros Hv. unfold operator_shl, shown.
  rewrite (for_loop_fold (λ os x, os ++ [Num x; Str " "]) _ N xs).
  - rewrite bind_Ok, shown_foldl, <- app_assoc. reflexivity.
  - apply Hv.
  - intros j x s Hx. by rewrite (read_const_holds v xs j x).
Qed.

Lemma check_double (cout : ostream) (x y : D) :
  check cout x y
  = Ok (cout ++ report [Num x] [Num y] (passes (diff x y)),
        Z.b2z (passes (diff x y))).
Proof.
  unfold check, report, passes. cbn [shl_of diff_of Checkable_double].
  rewrite !bind_Ok.
  destruct (dlt (diff x y) (lit 1 5)); cbn [Z.b2z];
    by rewrite <- !app_assoc.
Qed.

Lemma check_Vector {N} (cout : ostream) (val ref : Vector D N) xs ys :
  holds val xs → holds ref ys →
  check cout val ref
  = Ok (cout ++ report (shown xs) (shown ys) (passes (distance xs ys)),
        Z.b2z (passes (distance xs ys))).
Proof.
  intros Hval Href.
  unfold check, report, passes. cbn [shl_of diff_of Checkable_Vector].
  rewrite (operator_shl_holds _ val xs Hval), bind_Ok.
  rewrite (operator_shl_holds _ ref ys Href), bind_Ok.
  rewrite (diff_Vector_holds val ref xs ys Hval Href), bind_Ok.
  destruct (dlt (distance xs ys) (lit 1 5)); cbn [Z.b2z];
    by rewrite <- !app_assoc.
Qed.

(** ** The quiz program *)

Lemma nPassed_of_checks (p1 p2 p3 p4 p5 p6 p7 p8 : bool)
    (c1 c2 c3 c4 c5 c6 c7 c8 : string * @ostream D * @ostream D) :
  0 + Z.b2z p1 + Z.b2z p2 + Z.b2z p3 + Z.b2z p4
    + Z.b2z p5 + Z.b2z p6 + Z.b2z p7 + Z.b2z p8
  = nPassed_of (D := D) [(c1, p1); (c2, p2); (c3, p3); (c4, p4);
                (c5, p5); (c6, p6); (c7, p7); (c8, p8)].
Proof.
  unfold nPassed_of.
  destruct p1, p2, p3, p4, p5, p6, p7, p8; reflexivity.
Qed.

Ltac next := rewrite bind_Ok; cbv beta iota zeta.

Lemma test_prints (cout : ostream) : test cout = Ok (cout ++ transcript).
Proof.
  pose proof (holds_mkVector (N := 3) test_u eq_refl) as Hu.
  pose proof (holds_mkVector (N := 3) test_v eq_refl) as Hv.
  pose proof (holds_mkVector (N := 3) test_w eq_refl) as Hw.
  unfold test. fold test_u test_v test_w.
  rewrite !(Vector_init_holds 3) by reflexivity.
  do 3 next.
  rewrite (operator_shl_holds _ _ _ Hu). next.
  rewrite (operator_shl_holds _ _ _ Hv). next.
  rewrite (operator_shl_holds _ _ _ Hw). next.
  (* u+v *)
  rewrite (operator_plus_holds _ _ _ _ Hu Hv). next.
  next.
  rewrite (check_Vector _ _ _ (zip_with dadd test_u test_v)
             [lit 4 0; lit 3 0; lit 5 0])
    by (split; reflexivity).
  next.
  (* u-v *)
  rewrite (operator_minus_holds _ _ _ _ Hu Hv). next.
  next.
  rewrite (check_Vector _ _ _ (zip_with dsub test_u test_v)
             [lit (-2) 0; lit 1 0; lit 1 0])
    by (split; reflexivity).
  next.
  (* u*a *)
  rewrite (operator_times_holds _ (lit 4 0) _ Hu). next.
  next.
  rewrite (check_Vector _ _ _ (dmul (lit 4 0) <$> test_u)
             [lit 4 0; lit 8 0; lit 12 0])
    by (split; reflexivity).
  next.
  (* norm(u) *)
  rewrite (norm_holds _ _ Hu). next.
  rewrite check_double. next.
  (* inner(u,v) *)
  rewrite (inner_holds _ _ _ _ Hu Hv). next.
  rewrite check_double. next.
  (* cross(u,v) *)
  rewrite (cross_holds _ _ _ _ Hu Hv). next.
  next.
  rewrite (check_Vector _ _ _ (cross_of test_u test_v)
             [lit 1 0; lit 7 0; lit (-5) 0])
    by (split; reflexivity).
  next.
  (* det(u,v,w) *)
  rewrite (det_holds _ _ _ _ _ _ Hu Hv Hw). next.
  rewrite check_double. next.
  (* a*u *)
  rewrite (operator_times_left_holds (lit 4 0) _ _ Hu). next.
  next.
  rewrite (check_Vector _ _ _ (dmul (lit 4 0) <$> test_u)
             [lit 4 0; lit 8 0; lit 12 0])
    by (split; reflexivity).
  next.
  unfold transcript, test_header, test_checks. cbv beta zeta.
  rewrite <- nPassed_of_checks.
  cbv beta iota zeta delta [flat_map fst snd].
  f_equal. rewrite <- !app_assoc. reflexivity.
Qed.

(** C9. The quiz program has no parameters; started on a stream [cout] it
    completes normally, whatever the arithmetic of double and hence however
    many of the eight checks pass: it has added to the stream the constants,
    then for each check its title, the computed value, the reference value
    and the verdict, then the line with the pass count n (0 <= n <= 8)
    "PASSED n OF 8 TESTS", and its exit code is 0. *)
Theorem main_exits_with_zero (cout : ostream) :
  main cout = Ok (cout ++ transcript, 0) ∧
  length test_checks = 8%nat ∧
  0 <= nPassed_of test_checks <= 8.
Proof.
  split; [|split].
  - unfold main. by rewrite test_prints.
  - reflexivity.
  - unfold nPassed_of.
    pose proof (length_filter (λ c, c.2 = true) test_checks) as Hle.
    change (length test_checks) with 8%nat in Hle. lia.
Qed.

End Generic.

(* The two ends of the pass count: all eight checks pass in binary64, none
   passes when no comparison holds; the exit code is 0 in both. *)
Example main_binary64_passes_all :
  nPassed_of (@test_checks float binary64) = 8 ∧
  ∃ cout, @main float binary64 [] = Ok (cout, 0).
Proof. split; [|eexists]; vm_compute; reflexivity. Qed.

Example main_never_less_passes_none :
  nPassed_of (@test_checks float never_less) = 0 ∧
  ∃ cout, @main float never_less [] = Ok (cout, 0).
Proof. split; [|eexists]; vm_compute; reflexivity. Qed.

(** ** The reference values *)

Section ExactReference.

#[local] Open Scope R_scope.

Lemma sqrt_14_bounds : 374165 / 100000 < R_sqrt.sqrt 14 < 374167 / 100000.
Proof.
  split.
  - rewrite <- (sqrt_square (374165 / 100000)) by lra.
    apply sqrt_lt_1_alt. lra.
  - rewrite <- (sqrt_square (374167 / 100000)) by lra.
    apply sqrt_lt_1_alt. lra.
Qed.

Lemma dot_test_u_exact : dot (D := R) test_u test_u = 14.
Proof. cbn. lra. Qed.

Lemma reference_values_exact : reference_values (D := R).
Proof.
  pose proof (holds_mkVector (D := R) (N := 3) test_u eq_refl) as Hu.
  pose proof (holds_mkVector (D := R) (N := 3) test_v eq_refl) as Hv.
  pose proof (holds_mkVector (D := R) (N := 3) test_w eq_refl) as Hw.
  unfold reference_values.
  exists (mkVector (Some <$> test_u)), (mkVector (Some <$> test_v)),
         (mkVector (Some <$> test_w)).
  rewrite !(Vector_init_holds (D := R) 3) by reflexivity.
  do 3 (split; [reflexivity|]).
  split; [|split; [|split; [|split; [|split; [|split; [|split]]]]]].
  - rewrite (operator_plus_holds _ _ _ _ Hu Hv).
    cbn. repeat f_equal; lra.
  - rewrite (operator_minus_holds _ _ _ _ Hu Hv).
    cbn. repeat f_equal; lra.
  - rewrite (operator_times_holds _ test_a _ Hu).
    cbn. repeat f_equal; lra.
  - exists (R_sqrt.sqrt 14). split.
    + by rewrite (norm_holds _ _ Hu), dot_test_u_exact.
    + apply bool_decide_eq_true. unfold diff. cbn.
      pose proof sqrt_14_bounds as [Hlo Hhi].
      apply Rabs_def1; lra.
  - rewrite (inner_holds _ _ _ _ Hu Hv). f_equal. cbn. lra.
  - rewrite (cross_holds _ _ _ _ Hu Hv).
    cbn. repeat f_equal; lra.
  - rewrite (det_holds _ _ _ _ _ _ Hu Hv Hw). f_equal. cbn. lra.
  - rewrite (operator_times_left_holds test_a _ _ Hu).
    cbn. repeat f_equal; lra.
Qed.

End ExactReference.

Lemma reference_values_binary64 : reference_values (D := float).
Proof.
  unfold reference_values.
  exists (mkVector (Some <$> test_u)), (mkVector (Some <$> test_v)),
         (mkVector (Some <$> test_w)).
  do 3 (split; [reflexivity|]).
  do 3 (split; [vm_compute; reflexivity|]).
  split; [|do 3 (split; [vm_compute; reflexivity|]); vm_compute; reflexivity].
  exists (PrimFloat.sqrt 14%float). split; vm_compute; reflexivity.
Qed.

(** C1. On u = (1,2,3), v = (3,1,2), w = (5,3,7), a = 4 the operations return
    the reference values, in exact arithmetic and in binary64 alike:
    u+v = (4,3,5), u-v = (-2,1,1), u*a = (4,8,12), norm(u) within 1e-5 of
    3.74166, inner(u,v) = 11, cross(u,v) = (1,7,-5), det(u,v,w) = -9 and
    a*u = (4,8,12). *)
Theorem test_reference_values :
  reference_values (D := R) ∧ reference_values (D := float).
Proof. split; [exact reference_values_exact | exact reference_values_binary64]. Qed.

(** ** Rounding in binary64 *)

(* The literals of the source denote the doubles nearest to them. *)
Example lit_binary64_nearest :
  lit (D := float) 374166 5 = 0x1.deeeb702602c9p+1%float ∧
  lit (D := float) 1 5 = 0x1.4f8b588e368f1p-17%float ∧
  lit (D := float) (-9) 0 = (-9)%float.
Proof. repeat split; reflexivity. Qed.

Lemma float_neq (x y : float) :
  PrimFloat.eqb x x = true → PrimFloat.eqb x y = false → x ≠ y.
Proof. intros Hxx Hxy <-. rewrite Hxx in Hxy. discriminate Hxy. Qed.

(** C6, as stated, fails in binary64: on a = (1,1,0), b = (0,1,1),
    c = (2^53,-1,1), cross(a,b) = (1,-1,1) and inner(cross(a,b), c) is
    (2^53 + 1) + 1, each sum rounded back to 2^53, while det(a,b,c) is
    2 + 2^53, which is a double. *)
Lemma det_triple_product_binary64 :
  holds rounding_a [1; 1; 0]%float ∧
  holds rounding_b [0; 1; 1]%float ∧
  holds rounding_c [9007199254740992; -1; 1]%float ∧
  cross rounding_a rounding_b = Ok (mkVector [Some 1; Some (-1); Some 1]%float) ∧
  inner (mkVector [Some 1; Some (-1); Some 1]%float) rounding_c
    = Ok 9007199254740992%float ∧
  det rounding_a rounding_b rounding_c = Ok 9007199254740994%float ∧
  ¬ ∃ p d, cross rounding_a rounding_b = Ok p ∧
           inner p rounding_c = Ok d ∧
           det rounding_a rounding_b rounding_c = Ok d.
Proof.
  do 3 (split; [by split|]).
  do 3 (split; [vm_compute; reflexivity|]).
  intros (p & d & Hp & Hi & Hd).
  assert (p = mkVector [Some 1; Some (-1); Some 1]%float) as ->
    by exact (eq_sym (f_equal (λ o, match o with Ok x => x | _ => rounding_a end) Hp)).
  assert (d = 9007199254740992%float) as Hd1
    by exact (eq_sym (f_equal (λ o, match o with Ok x => x | _ => 0%float end) Hi)).
  assert (d = 9007199254740994%float) as Hd2
    by exact (eq_sym (f_equal (λ o, match o with Ok x => x | _ => 0%float end) Hd)).
  rewrite Hd1 in Hd2. revert Hd2. by apply float_neq.
Qed.


(** C7, as stated, fails in binary64: on u = (0,1,1), v = (1,-1,2^53) the
    first coordinate of cross(u,v), 2^53 + 1, rounds to 2^53, so
    inner(cross(u,v), v) is 2^53 - 1 - 2^53 = -1, which is not 0. *)
Lemma cross_orthogonal_binary64 :
  holds rounding_b [0; 1; 1]%float ∧
  holds rounding_d [1; -1; 9007199254740992]%float ∧
  cross rounding_b rounding_d
    = Ok (mkVector [Some 9007199254740992; Some 1; Some (-1)]%float) ∧
  inner (mkVector [Some 9007199254740992; Some 1; Some (-1)]%float) rounding_d
    = Ok (-1)%float ∧
  PrimFloat.eqb (-1)%float 0%float = false ∧
  dlt (diff (-1)%float 0%float) (lit 1 5) = false.
Proof.
  do 2 (split; [by split|]).
  repeat split; vm_compute; reflexivity.
Qed.

(** ** The theorems at concrete vectors *)

Lemma operator_plus_coordinates_witness :
  ∃ sum, operator_plus (N := 3) (mkVector [Some 1; Some 2; Some 3]%float)
                       (mkVector [Some 3; Some 1; Some 2]%float) = Ok sum ∧
         read_const sum 1 = Ok 3%float.
Proof.
  destruct (operator_plus_coordinates (D := float) (N := 3)
              (mkVector [Some 1; Some 2; Some 3]%float)
              (mkVector [Some 3; Some 1; Some 2]%float)
              [1; 2; 3]%float [3; 1; 2]%float)
    as (sum & Hsum & Hcoord).
  - split; reflexivity.
  - split; reflexivity.
  - exists sum. split; [exact Hsum|].
    apply (Hcoord 1 2%float 1%float); [lia | reflexivity | reflexivity].
Defined.

Lemma scalar_multiplication_commutes_witness :
  ∃ product,
    operator_times_left (N := 3) 4%float (mkVector [Some 1; Some 2; Some 3]%float)
    = Ok product ∧
    operator_times (mkVector [Some 1; Some 2; Some 3]%float) 4%float
    = Ok product ∧
    holds product [4; 8; 12]%float.
Proof.
  assert (holds (N := 3) (mkVector [Some 1; Some 2; Some 3]%float)
            [1; 2; 3]%float) as Hv by (split; reflexivity).
  exact (scalar_multiplication_commutes (D := float) (N := 3) 4%float
           (mkVector [Some 1; Some 2; Some 3]%float) [1; 2; 3]%float Hv).
Defined.

Lemma norm_is_sqrt_inner_witness :
  ∃ sum, inner (N := 2) (mkVector [Some 3; Some 4]%float)
               (mkVector [Some 3; Some 4]%float) = Ok sum ∧
         sum = 25%float ∧
         norm (N := 2) (mkVector [Some 3; Some 4]%float)
         = Ok (PrimFloat.sqrt sum).
Proof.
  assert (holds (N := 2) (mkVector [Some 3; Some 4]%float) [3; 4]%float)
    as Hv by (split; reflexivity).
  exact (norm_is_sqrt_inner (D := float) (N := 2)
           (mkVector [Some 3; Some 4]%float) [3; 4]%float Hv).
Defined.

Lemma operator_index_assertion_witness :
  read (N := 3) (mkVector [Some 7; Some 5; Some 3]%float) 1 = Ok 5%float ∧
  read_const (N := 3) (mkVector [Some 7; Some 5; Some 3]%float) 1 = Ok 5%float ∧
  operator_index (N := 3) (mkVector [Some 7; Some 5; Some 3]%float) 3
  = AssertFail.
Proof.
  pose proof (operator_index_assertion (D := float) (N := 3)
                (mkVector [Some 7; Some 5; Some 3]%float) 1) as (_ & _ & Hin).
  pose proof (operator_index_assertion (D := float) (N := 3)
                (mkVector [Some 7; Some 5; Some 3]%float) 3) as (Hout & _ & _).
  destruct Hin as (_ & _ & Hread); [lia|].
  destruct (Hread 5%float eq_refl) as [Hr Hc].
  split; [exact Hr|]. split; [exact Hc|].
  apply Hout. right. lia.
Defined.

Lemma Vector_init_coordinates_witness :
  Vector_init 3 [1; 2]%float = Ok (mkVector [Some 1; Some 2; None]%float) ∧
  Vector_init 3 [1; 2; 3; 4]%float = Undefined.
Proof.
  split.
  - apply (proj1 (Vector_init_coordinates (D := float) 3 [1; 2]%float)).
    cbn. lia.
  - apply (proj2 (Vector_init_coordinates (D := float) 3 [1; 2; 3; 4]%float)).
    cbn. lia.
Defined.

(** * Further properties of the vector class *)

Section Access.

Context {D : Type} `{Scalar D}.

(** ** Bracket access on the cells *)

Lemma load_insert_eq {N} (v : Vector D N) (r : nat) (x : D) :
  (r < length (u v))%nat →
  load (N := N) (mkVector (<[r := Some x]> (u v))) r = Ok x.
Proof.
  intros Hr. unfold load. cbn [u].
  by rewrite list_lookup_insert_eq.
Qed.

Lemma load_insert_ne {N} (v : Vector D N) (r q : nat) (x : D) :
  r ≠ q → load (N := N) (mkVector (<[r := Some x]> (u v))) q = load v q.
Proof.
  intros Hne. unfold load. cbn [u].
  by rewrite list_lookup_insert_ne.
Qed.

Lemma in_range_false (N : nat) (i : Z) :
  ¬ (0 <= i < Z.of_nat N) → (i >=? 0) && (i <? Z.of_nat N) = false.
Proof.
  intros Hout.
  destruct (Z.geb_spec i 0), (Z.ltb_spec i (Z.of_nat N)); cbn; try reflexivity.
  lia.
Qed.

Lemma in_range_Z_true (N : nat) (i : Z) :
  0 <= i < Z.of_nat N → (i >=? 0) && (i <? Z.of_nat N) = true.
Proof.
  intros Hin. rewrite <- (Z2Nat.id i) by lia. apply in_range_true. lia.
Qed.

(** X1. On a Vector<N> (its array has N cells) and an index 0 <= i < N, the
    assignment v[i] = x succeeds, a later v[i] (through either overload)
    returns x, the array still has N cells, and every other index reads as
    it did before the assignment. *)
Theorem assign_then_read {N} (v : Vector D N) (i : Z) (x : D) :
  length (u v) = N → 0 <= i < Z.of_nat N →
  ∃ v', assign v i x = Ok v' ∧
    read v' i = Ok x ∧ read_const v' i = Ok x ∧
    length (u v') = N ∧
    ∀ j, j ≠ i → read v' j = read v j ∧ read_const v' j = read_const v j.
Proof.
  intros Hlen Hi.
  exists (mkVector (<[Z.to_nat i := Some x]> (u v))).
  unfold assign, read, read_const, operator_index, operator_index_const, store.
  rewrite in_range_Z_true by assumption. cbn [mbind outcome_bind].
  rewrite bool_decide_eq_true_2 by lia.
  split; [reflexivity|].
  rewrite load_insert_eq by lia.
  do 2 (split; [reflexivity|]).
  split; [cbn [u]; by rewrite length_insert|].
  intros j Hj.
  destruct (decide (0 <= j < Z.of_nat N)) as [Hin|Hout].
  - rewrite in_range_Z_true by assumption. cbn [mbind outcome_bind].
    rewrite load_insert_ne by lia. by split.
  - rewrite in_range_false by assumption. by split.
Qed.

(** X2. With assertions live, bracket access on a Vector<N> never reaches an
    out-of-bounds array access: assignment through operator[] either
    succeeds or fails the assertion, and a read is undefined exactly when
    the index is in range and the cell was never assigned. *)
Theorem bracket_access_guarded {N} (v : Vector D N) (i : Z) (x : D) :
  length (u v) = N →
  assign v i x ≠ Undefined ∧
  (read v i = Undefined ↔
     0 <= i < Z.of_nat N ∧ u v !! Z.to_nat i = Some None) ∧
  (read_const v i = Undefined ↔
     0 <= i < Z.of_nat N ∧ u v !! Z.to_nat i = Some None).
Proof.
  intros Hlen.
  unfold assign, read, read_const, operator_index, operator_index_const,
    store, load.
  destruct (decide (0 <= i < Z.of_nat N)) as [Hin|Hout].
  - rewrite in_range_Z_true by assumption. cbn [mbind outcome_bind].
    rewrite bool_decide_eq_true_2 by lia.
    split; [discriminate|].
    destruct (lookup_lt_is_Some_2 (u v) (Z.to_nat i)) as [c Hc]; [lia|].
    rewrite Hc. destruct c as [y|].
    + split; (split; [discriminate | intros [_ Hnone]; discriminate Hnone]).
    + by split.
  - rewrite in_range_false by assumption. cbn [mbind outcome_bind].
    split; [discriminate|].
    split; (split; [discriminate | intros [Hin _]; contradiction]).
Qed.

(** ** Reading what the constructors leave *)

(** X3. A vector built from an initializer list of k <= N coordinates reads
    back the i-th listed value at every index i < k; at the indices
    k <= i < N, which the constructor never assigned (all of them for the
    empty list, as after the default constructor), a read is undefined. *)
Theorem Vector_init_then_read (N : nat) (coords : list D) :
  (length coords ≤ N)%nat →
  ∃ v, Vector_init N coords = Ok v ∧
    ∀ i, 0 <= i < Z.of_nat N →
      read_const v i = match coords !! Z.to_nat i with
                       | Some x => Ok x
                       | None => Undefined
                       end.
Proof.
  intros Hk. eexists. split.
  - unfold Vector_init, Vector_new.
    pose proof (Vector_init_loop_from (N := N) coords [] N) as Hloop.
    cbn [length fmap list_fmap app] in Hloop.
    change (Z.of_nat 0) with 0 in Hloop.
    rewrite Hloop, decide_True by lia. reflexivity.
  - intros i Hi. unfold read_const, operator_index_const, load.
    rewrite in_range_Z_true by assumption. cbn [mbind outcome_bind u].
    destruct (coords !! Z.to_nat i) as [x|] eqn:Hx.
    + rewrite lookup_app_l
        by (rewrite length_fmap; by eapply lookup_lt_Some).
      by rewrite list_lookup_fmap, Hx.
    + apply lookup_ge_None in Hx.
      rewrite lookup_app_r by (rewrite length_fmap; lia).
      rewrite lookup_replicate_2; [reflexivity|].
      rewrite length_fmap. lia.
Qed.

End Access.

Section Unassigned.

Context {D : Type} `{Scalar D}.

(** ** Operations on a vector with an unassigned coordinate *)

Lemma bind_no_assert {A B} (m : outcome A) (k : A → outcome B) :
  m ≠ AssertFail → (∀ a, k a ≠ AssertFail) → (m ≫= k) ≠ AssertFail.
Proof. intros Hm Hk. destruct m as [a| |]; cbn; [apply Hk | done | done]. Qed.

Lemma bind_undefined {A B} (m : outcome A) (k : A → outcome B) :
  m ≠ AssertFail → (∀ a, k a = Undefined) → (m ≫= k) = Undefined.
Proof. intros Hm Hk. destruct m as [a| |]; cbn; [apply Hk | done | done]. Qed.

Lemma load_no_assert {N} (v : Vector D N) (r : nat) : load v r ≠ AssertFail.
Proof. unfold load. by destruct (u v !! r) as [[x|]|]. Qed.

Lemma store_no_assert {N} (v : Vector D N) (r : nat) (x : D) :
  store v r x ≠ AssertFail.
Proof. unfold store. by case_bool_decide. Qed.

Lemma read_const_no_assert {N} (v : Vector D N) (j : nat) :
  (j < N)%nat → read_const v (Z.of_nat j) ≠ AssertFail.
Proof.
  intros Hj. unfold read_const.
  rewrite operator_index_const_in_range by assumption.
  apply load_no_assert.
Qed.

Lemma read_no_assert {N} (v : Vector D N) (j : nat) :
  (j < N)%nat → read v (Z.of_nat j) ≠ AssertFail.
Proof.
  intros Hj. unfold read.
  rewrite operator_index_in_range by assumption.
  apply load_no_assert.
Qed.

Lemma assign_no_assert {N} (v : Vector D N) (j : nat) (x : D) :
  (j < N)%nat → assign v (Z.of_nat j) x ≠ AssertFail.
Proof.
  intros Hj. unfold assign.
  rewrite operator_index_in_range by assumption.
  apply store_no_assert.
Qed.

Lemma member_read_no_assert {N} (v : Vector D N) (i : Z) :
  member_read v i ≠ AssertFail.
Proof.
  unfold member_read, subscript.
  destruct ((0 <=? i) && (i <? Z.of_nat (length (u v)))); cbn; [|done].
  apply load_no_assert.
Qed.

Lemma read_const_unassigned {N} (v : Vector D N) (k : nat) :
  (k < N)%nat → u v !! k = Some None → read_const v (Z.of_nat k) = Undefined.
Proof.
  intros Hk Hcell. unfold read_const.
  rewrite operator_index_const_in_range by assumption.
  cbn. unfold load. by rewrite Hcell.
Qed.

Lemma member_read_unassigned {N} (v : Vector D N) (k : nat) :
  u v !! k = Some None → member_read v (Z.of_nat k) = Undefined.
Proof.
  intros Hcell. unfold member_read.
  rewrite subscript_in_range by (by eapply lookup_lt_Some).
  cbn. unfold load. by rewrite Hcell.
Qed.

(* A loop whose iterations before the k-th cannot fail an assertion and
   whose k-th iteration is undefined is undefined as a whole. *)
Lemma for_loop_undefined {St} (body : Z → St → outcome St) (k : nat) :
  ∀ (n : nat) (i0 : Z) (s0 : St),
    (k < n)%nat →
    (∀ j s, (j < k)%nat → body (i0 + Z.of_nat j) s ≠ AssertFail) →
    (∀ s, body (i0 + Z.of_nat k) s = Undefined) →
    for_loop n i0 body s0 = Undefined.
Proof.
  induction k as [|k IH]; intros n i0 s0 Hn Hbefore Hat;
    destruct n as [|n]; try lia; cbn [for_loop].
  - specialize (Hat s0). rewrite Z.add_0_r in Hat. by rewrite Hat.
  - pose proof (Hbefore 0%nat s0 ltac:(lia)) as H0.
    rewrite Z.add_0_r in H0.
    destruct (body i0 s0) as [s1| |]; cbn; [|done|done].
    apply IH; [lia| |].
    + intros j s Hj.
      replace (i0 + 1 + Z.of_nat j) with (i0 + Z.of_nat (S j)) by lia.
      apply Hbefore. lia.
    + intros s.
      replace (i0 + 1 + Z.of_nat k) with (i0 + Z.of_nat (S k)) by lia.
      apply Hat.
Qed.

Lemma for_loop_undefined_0 {St} (body : Z → St → outcome St) (n k : nat) (s0 : St) :
  (k < n)%nat →
  (∀ j s, (j < k)%nat → body (Z.of_nat j) s ≠ AssertFail) →
  (∀ s, body (Z.of_nat k) s = Undefined) →
  for_loop n 0 body s0 = Undefined.
Proof. intros Hn Hbefore Hat. by apply (for_loop_undefined body k). Qed.

(** X4. If a coordinate of a Vector<N> was never assigned, every operation
    that reads the whole vector is undefined, and none of them fails an
    assertion on the way: norm, inner (either argument), operator+ (either
    operand) and the stream insertion.  The values of the other coordinates
    and of the other operand do not matter. *)
Theorem unassigned_coordinate_is_undefined {N} (v w : Vector D N) (k : nat)
    (os : ostream) :
  (k < N)%nat → u v !! k = Some None →
  norm v = Undefined ∧
  inner v w = Undefined ∧ inner w v = Undefined ∧
  operator_plus v w = Undefined ∧ operator_plus w v = Undefined ∧
  operator_shl os v = Undefined.
Proof.
  intros Hk Hcell.
  pose proof (read_const_unassigned v k Hk Hcell) as Hread.
  pose proof (member_read_unassigned v k Hcell) as Hmember.
  repeat split.
  - unfold norm.
    rewrite (for_loop_undefined_0 _ N k); [reflexivity | assumption | |].
    + intros j s Hj.
      repeat (apply bind_no_assert; [apply read_const_no_assert; lia|intros ?]).
      discriminate.
    + intros s. by rewrite Hread.
  - unfold inner. apply (for_loop_undefined_0 _ N k); [assumption | |].
    + intros j s Hj.
      repeat (apply bind_no_assert; [apply read_const_no_assert; lia|intros ?]).
      discriminate.
    + intros s. by rewrite Hread.
  - unfold inner. apply (for_loop_undefined_0 _ N k); [assumption | |].
    + intros j s Hj.
      repeat (apply bind_no_assert; [apply read_const_no_assert; lia|intros ?]).
      discriminate.
    + intros s. apply bind_undefined; [by apply read_const_no_assert|].
      intros x. by rewrite Hread.
  - unfold operator_plus. apply (for_loop_undefined_0 _ N k); [assumption | |].
    + intros j s Hj.
      apply bind_no_assert; [apply member_read_no_assert|intros x].
      apply bind_no_assert; [apply read_const_no_assert; lia|intros y].
      apply assign_no_assert. lia.
    + intros s. by rewrite Hmember.
  - unfold operator_plus. apply (for_loop_undefined_0 _ N k); [assumption | |].
    + intros j s Hj.
      apply bind_no_assert; [apply member_read_no_assert|intros x].
      apply bind_no_assert; [apply read_const_no_assert; lia|intros y].
      apply assign_no_assert. lia.
    + intros s. apply bind_undefined; [apply member_read_no_assert|].
      intros x. by rewrite Hread.
  - unfold operator_shl.
    rewrite (for_loop_undefined_0 _ N k); [reflexivity | assumption | |].
    + intros j s Hj.
      apply bind_no_assert; [apply read_const_no_assert; lia|intros x].
      discriminate.
    + intros s. by rewrite Hread.
Qed.

(** ** Subtraction and printing *)

(** X5. For vectors a, b of the same dimension N (all coordinates assigned),
    a - b returns a vector whose coordinate i, for every 0 <= i < N, is
    a[i] - b[i]. *)
Theorem operator_minus_coordinates {N} (a b : Vector D N) xs ys :
  holds a xs → holds b ys →
  ∃ difference, operator_minus a b = Ok difference ∧
    ∀ i x y, 0 <= i < Z.of_nat N →
      read_const a i = Ok x → read_const b i = Ok y →
      read_const difference i = Ok (dsub x y).
Proof.
  intros Ha Hb. eexists. split; [by apply operator_minus_holds|].
  intros i x y Hi Hx Hy.
  assert (length (zip_with dsub xs ys) = N) as Hlen
    by (destruct Ha as [_ Ha], Hb as [_ Hb]; rewrite length_zip_with; lia).
  pose proof (holds_mkVector _ Hlen) as Hdiff.
  rewrite <- (Z2Nat.id i) in Hx, Hy |- * by lia.
  destruct (lookup_lt_is_Some_2 xs (Z.to_nat i)) as [x' Hx'];
    [destruct Ha as [_ ->]; lia|].
  destruct (lookup_lt_is_Some_2 ys (Z.to_nat i)) as [y' Hy'];
    [destruct Hb as [_ ->]; lia|].
  rewrite (read_const_holds a xs _ x' Ha Hx') in Hx.
  rewrite (read_const_holds b ys _ y' Hb Hy') in Hy.
  assert (x' = x) as -> by congruence.
  assert (y' = y) as -> by congruence.
  apply (read_const_holds _ _ _ _ Hdiff).
  apply lookup_zip_with_Some. by exists x, y.
Qed.

Lemma length_shown (xs : list D) : length (shown xs) = (2 * length xs + 2)%nat.
Proof.
  unfold shown. cbn [length]. f_equal.
  induction xs as [|x xs IH]; cbn [foldr length]; [reflexivity|].
  rewrite IH. lia.
Qed.

Lemma lookup_shown (xs : list D) (i : nat) (x : D) :
  xs !! i = Some x →
  shown xs !! (2 * i + 1)%nat = Some (Num x) ∧
  shown xs !! (2 * i + 2)%nat = Some (Str " ").
Proof.
  unfold shown. revert i. induction xs as [|y xs IH]; intros i Hx.
  - discriminate Hx.
  - destruct i as [|i].
    + cbn in Hx. injection Hx as ->. by split.
    + cbn in Hx. destruct (IH i Hx) as [Hnum Hsep].
      replace (2 * S i + 1)%nat with (S (S (S (2 * i)))) by lia.
      replace (2 * S i + 2)%nat with (S (S (S (S (2 * i))))) by lia.
      replace (2 * i + 1)%nat with (S (2 * i)) in Hnum by lia.
      replace (2 * i + 2)%nat with (S (S (2 * i))) in Hsep by lia.
      cbn [foldr]. split; [exact Hnum | exact Hsep].
Qed.

Lemma last_shown (xs : list D) : last (shown xs) = Some (Str "]").
Proof.
  unfold shown.
  change (Str "[ " :: foldr (λ x os, Num x :: Str " " :: os) [Str "]"] xs)
    with ([Str "[ "] ++ foldr (λ x os, Num x :: Str " " :: os) [Str "]"] xs).
  induction xs as [|x xs IH]; [reflexivity|].
  cbn [foldr app] in *.
  destruct (foldr (λ x os, Num x :: Str " " :: os) [Str "]"] xs) eqn:Hrest;
    [discriminate IH|].
  exact IH.
Qed.

(** X6. Inserting a vector of dimension N (all coordinates assigned) into a
    stream only appends to it: first the item "[ ", then for each coordinate
    in index order the coordinate followed by the item " ", then "]";
    2N + 2 items in all, and what the stream held before is untouched. *)
Theorem operator_shl_appends {N} (os : ostream) (v : Vector D N) xs :
  holds v xs →
  ∃ items, operator_shl os v = Ok (os ++ items) ∧
    length items = (2 * N + 2)%nat ∧
    items !! 0%nat = Some (Str "[ ") ∧
    last items = Some (Str "]") ∧
    ∀ i x, xs !! i = Some x →
      items !! (2 * i + 1)%nat = Some (Num x) ∧
      items !! (2 * i + 2)%nat = Some (Str " ").
Proof.
  intros Hv. exists (shown xs).
  split; [by apply operator_shl_holds|].
  split; [rewrite length_shown; destruct Hv as [_ ->]; reflexivity|].
  split; [reflexivity|].
  split; [apply last_shown|].
  apply lookup_shown.
Qed.

End Unassigned.

(** * Helper facts on assigned vectors *)

Section Holds.

Context {D : Type} `{Scalar D}.

Lemma holds_length {N} (v : Vector D N) xs : holds v xs → length xs = N.
Proof. by intros [_ Hlen]. Qed.

Lemma holds_zip_with {N} (f : D → D → D) (xs ys : list D) :
  length xs = N → length ys = N →
  holds (N := N) (mkVector (Some <$> zip_with f xs ys)) (zip_with f xs ys).
Proof.
  intros Hxs Hys. apply holds_mkVector. rewrite length_zip_with. lia.
Qed.

Lemma holds_fmap {N} (f : D → D) (xs : list D) :
  length xs = N → holds (N := N) (mkVector (Some <$> (f <$> xs))) (f <$> xs).
Proof. intros Hxs. apply holds_mkVector. by rewrite length_fmap. Qed.

End Holds.

Section ExactDistance.

#[local] Open Scope R_scope.

(** ** The distance used by check, over exact arithmetic *)

Lemma foldl_distance_shift (l : list (R * R)) (a : R) :
  foldl (λ sum p, sum + Rabs (p.1 - p.2)) a l
  = a + foldl (λ sum p, sum + Rabs (p.1 - p.2)) 0 l.
Proof.
  revert a. induction l as [|[x y] l IH]; intros a; cbn [foldl fst snd].
  - lra.
  - rewrite (IH (a + Rabs (x - y))), (IH (0 + Rabs (x - y))). lra.
Qed.

Lemma distance_unfold (xs ys : list R) :
  distance xs ys = foldl (λ sum p, sum + Rabs (p.1 - p.2)) 0 (zip xs ys).
Proof.
  unfold distance, diff. cbn [lit dadd dsub dfabs exact_real].
  replace (IZR 0 / 10 ^ 0) with 0 by (cbn; lra). reflexivity.
Qed.

Lemma distance_nil_l (ys : list R) : distance [] ys = 0.
Proof. by rewrite distance_unfold. Qed.

Lemma distance_cons (x y : R) (xs ys : list R) :
  distance (x :: xs) (y :: ys) = Rabs (x - y) + distance xs ys.
Proof.
  rewrite !distance_unfold. cbn [zip zip_with foldl fst snd].
  rewrite foldl_distance_shift. lra.
Qed.

Lemma distance_nonneg (xs ys : list R) : 0 <= distance xs ys.
Proof.
  revert ys. induction xs as [|x xs IH]; intros ys;
    [rewrite distance_nil_l; lra|].
  destruct ys as [|y ys]; [rewrite distance_unfold; cbn; lra|].
  rewrite distance_cons. pose proof (Rabs_pos (x - y)). specialize (IH ys). lra.
Qed.

Lemma distance_zero (xs ys : list R) :
  length xs = length ys → (distance xs ys = 0 ↔ xs = ys).
Proof.
  revert ys. induction xs as [|x xs IH]; intros [|y ys] Hlen;
    try discriminate Hlen; [by rewrite distance_nil_l|].
  injection Hlen as Hlen. rewrite distance_cons.
  pose proof (Rabs_pos (x - y)) as Hpos.
  pose proof (distance_nonneg xs ys) as Hnn.
  split.
  - intros Hsum.
    assert (Rabs (x - y) = 0) as Hxy by lra.
    assert (distance xs ys = 0) as Hrest by lra.
    apply IH in Hrest; [|assumption]. subst ys.
    destruct (Req_dec (x - y) 0) as [Heq|Hne].
    + f_equal. lra.
    + apply Rabs_no_R0 in Hne. contradiction.
  - intros Heq. injection Heq as <- <-.
    rewrite (proj2 (IH xs Hlen) eq_refl).
    replace (x - x) with 0 by lra. rewrite Rabs_R0. lra.
Qed.

End ExactDistance.

(** * The verdict of the quiz program *)

Section Verdict.

#[local] Open Scope R_scope.

Lemma passes_zero_distance (xs ys : list R) :
  xs = ys → passes (distance xs ys) = true.
Proof.
  intros <-. unfold passes. cbn [dlt exact_real].
  rewrite (proj2 (distance_zero xs xs eq_refl) eq_refl).
  apply bool_decide_eq_true_2. cbn. lra.
Qed.

Lemma passes_zero_diff (x y : R) : x = y → passes (diff x y) = true.
Proof.
  intros <-. unfold passes, diff. cbn [dlt dfabs dsub exact_real].
  replace (x - x) with 0 by lra. rewrite Rabs_R0.
  apply bool_decide_eq_true_2. cbn. lra.
Qed.

Lemma nPassed_exact : nPassed_of (@test_checks R exact_real) = 8%Z.
Proof.
  assert (passes (D := R) (distance (zip_with dadd test_u test_v)
                    [lit 4 0; lit 3 0; lit 5 0]) = true) as H1
    by (apply passes_zero_distance; cbn; repeat f_equal; lra).
  assert (passes (D := R) (distance (zip_with dsub test_u test_v)
                    [lit (-2) 0; lit 1 0; lit 1 0]) = true) as H2
    by (apply passes_zero_distance; cbn; repeat f_equal; lra).
  assert (passes (D := R) (distance (dmul test_a <$> test_u)
                    [lit 4 0; lit 8 0; lit 12 0]) = true) as H3
    by (apply passes_zero_distance; cbn; repeat f_equal; lra).
  assert (passes (D := R) (diff (dsqrt (dot test_u test_u)) (lit 374166 5)) = true)
    as H4.
  { unfold passes, diff. rewrite dot_test_u_exact.
    apply bool_decide_eq_true. cbn.
    pose proof sqrt_14_bounds as [Hlo Hhi]. apply Rabs_def1; lra. }
  assert (passes (D := R) (diff (dot test_u test_v) (lit 11 0)) = true) as H5
    by (apply passes_zero_diff; cbn; lra).
  assert (passes (D := R) (distance (cross_of test_u test_v)
                    [lit 1 0; lit 7 0; lit (-5) 0]) = true) as H6
    by (apply passes_zero_distance; cbn; repeat f_equal; lra).
  assert (passes (D := R) (diff (det_of test_u test_v test_w) (lit (-9) 0)) = true)
    as H7 by (apply passes_zero_diff; cbn; lra).
  unfold nPassed_of, test_checks. cbv zeta.
  rewrite H1, H2, H3, H4, H5, H6, H7. reflexivity.
Qed.

Lemma nPassed_binary64 : nPassed_of (@test_checks float binary64) = 8%Z.
Proof. vm_compute. reflexivity. Qed.

(** X21. Started on an empty stream, the quiz program ends its output with
    the line "PASSED 8 OF 8 TESTS" and exits with code 0, in exact arithmetic
    and in binary64 alike: the implementation passes all eight of its own
    reference checks. *)
Theorem main_reports_all_passed :
  (∃ out, main (D := R) [] =
     Ok (out ++ [Str "PASSED "; Int 8; Str " OF 8 TESTS"; Endl], 0%Z)) ∧
  (∃ out, main (D := float) [] =
     Ok (out ++ [Str "PASSED "; Int 8; Str " OF 8 TESTS"; Endl], 0%Z)).
Proof.
  split; eexists; unfold main; rewrite test_prints, bind_Ok;
    unfold transcript; rewrite ?nPassed_exact, ?nPassed_binary64;
    rewrite app_nil_l, app_assoc; reflexivity.
Qed.

End Verdict.

(** * The further properties at concrete vectors *)

Lemma assign_then_read_witness :
  ∃ v', assign exact_753 1 9%R = Ok v' ∧
    read v' 1 = Ok 9%R ∧ read_const v' 1 = Ok 9%R ∧
    length (u v') = 3%nat ∧
    ∀ j, j ≠ 1 →
      read v' j = read exact_753 j ∧ read_const v' j = read_const exact_753 j.
Proof. apply (assign_then_read exact_753 1 9%R); [reflexivity | lia]. Defined.

Lemma bracket_access_guarded_witness :
  assign exact_34 2 5%R ≠ Undefined ∧
  (read exact_34 2 = Undefined ↔
     0 <= 2 < Z.of_nat 3 ∧ u exact_34 !! Z.to_nat 2 = Some None).
Proof.
  pose proof (bracket_access_guarded exact_34 2 5%R eq_refl)
    as (Hassign & Hread & _).
  split; [exact Hassign | exact Hread].
Defined.

Lemma Vector_init_then_read_witness :
  ∃ v, Vector_init 3 [3; 4]%R = Ok v ∧
    ∀ i, 0 <= i < Z.of_nat 3 →
      read_const v i = match [3; 4]%R !! Z.to_nat i with
                       | Some x => Ok x
                       | None => Undefined
                       end.
Proof. apply (Vector_init_then_read 3 [3; 4]%R). cbn. lia. Defined.

Lemma unassigned_coordinate_is_undefined_witness :
  norm exact_34 = Undefined ∧
  inner exact_34 exact_u = Undefined ∧ inner exact_u exact_34 = Undefined ∧
  operator_plus exact_34 exact_u = Undefined ∧
  operator_plus exact_u exact_34 = Undefined ∧
  operator_shl [] exact_34 = Undefined.
Proof.
  apply (unassigned_coordinate_is_undefined exact_34 exact_u 2 []);
    [lia | reflexivity].
Defined.

Lemma operator_minus_coordinates_witness :
  ∃ difference, operator_minus exact_u exact_v = Ok difference ∧
    read_const difference 0 = Ok (1 - 3)%R.
Proof.
  destruct (operator_minus_coordinates exact_u exact_v
              [1; 2; 3]%R [3; 1; 2]%R)
    as (difference & Hdiff & Hcoord); [split; reflexivity ..|].
  exists difference. split; [exact Hdiff|].
  apply (Hcoord 0 1%R 3%R); [lia | reflexivity | reflexivity].
Defined.

Lemma operator_shl_appends_witness :
  ∃ items, operator_shl [Str "u: "] exact_u = Ok ([Str "u: "] ++ items) ∧
    length items = 8%nat.
Proof.
  destruct (operator_shl_appends [Str "u: "] exact_u [1; 2; 3]%R)
    as (items & Hitems & Hlen & _); [split; reflexivity|].
  exists items. split; [exact Hitems | exact Hlen].
Defined.

(** * What the operations never do, and what check prints *)

Section NoAssert.

Context {D : Type} `{Scalar D}.

Lemma for_loop_no_assert {St} (body : Z → St → outcome St) (n : nat) :
  ∀ (i0 : nat) (s0 : St),
    (∀ j s, (i0 ≤ j < i0 + n)%nat → body (Z.of_nat j) s ≠ AssertFail) →
    for_loop n (Z.of_nat i0) body s0 ≠ AssertFail.
Proof.
  induction n as [|n IH]; intros i0 s0 Hbody; cbn [for_loop]; [discriminate|].
  apply bind_no_assert; [apply Hbody; lia|].
  intros s1.
  replace (Z.of_nat i0 + 1) with (Z.of_nat (S i0)) by lia.
  apply IH. intros j s Hj. apply Hbody. lia.
Qed.

Lemma for_loop_no_assert_0 {St} (body : Z → St → outcome St) (n : nat) (s0 : St) :
  (∀ j s, (j < n)%nat → body (Z.of_nat j) s ≠ AssertFail) →
  for_loop n 0 body s0 ≠ AssertFail.
Proof.
  intros Hbody. apply (for_loop_no_assert body n 0%nat).
  intros j s Hj. apply Hbody. lia.
Qed.

Ltac no_assert :=
  repeat first
    [ apply member_read_no_assert
    | apply read_const_no_assert; lia
    | apply read_no_assert; lia
    | apply assign_no_assert; lia
    | discriminate
    | apply bind_no_assert; [|intros ?] ].

(** X22. Whatever the arrays of their operands hold, the operations of the
    class never fail the bounds assertion of operator[]: every index they
    use is in range.  Only an index chosen by the caller can fail it. *)
Theorem operations_never_fail_assertion {N} (v w : Vector D N)
    (a b c : Vector D 3) (s : D) (os : ostream) :
  operator_plus v w ≠ AssertFail ∧ operator_minus v w ≠ AssertFail ∧
  operator_times v s ≠ AssertFail ∧ operator_times_left s v ≠ AssertFail ∧
  norm v ≠ AssertFail ∧ inner v w ≠ AssertFail ∧
  operator_shl os v ≠ AssertFail ∧ diff_Vector v w ≠ AssertFail ∧
  cross a b ≠ AssertFail ∧ det a b c ≠ AssertFail.
Proof.
  repeat split.
  - apply for_loop_no_assert_0. intros j st Hj. no_assert.
  - apply for_loop_no_assert_0. intros j st Hj. no_assert.
  - apply for_loop_no_assert_0. intros j st Hj. no_assert.
  - apply for_loop_no_assert_0. intros j st Hj. no_assert.
  - unfold norm. apply bind_no_assert; [|discriminate].
    apply for_loop_no_assert_0. intros j st Hj. no_assert.
  - apply for_loop_no_assert_0. intros j st Hj. no_assert.
  - unfold operator_shl. apply bind_no_assert; [|discriminate].
    apply for_loop_no_assert_0. intros j st Hj. no_assert.
  - apply for_loop_no_assert_0. intros j st Hj. no_assert.
  - unfold cross.
    repeat first
      [ apply (read_const_no_assert _ 0); lia
      | apply (read_const_no_assert _ 1); lia
      | apply (read_const_no_assert _ 2); lia
      | apply (assign_no_assert _ 0); lia
      | apply (assign_no_assert _ 1); lia
      | apply (assign_no_assert _ 2); lia
      | discriminate
      | apply bind_no_assert; [|intros ?] ].
  - unfold det.
    repeat first
      [ apply (read_const_no_assert _ 0); lia
      | apply (read_const_no_assert _ 1); lia
      | apply (read_const_no_assert _ 2); lia
      | discriminate
      | apply bind_no_assert; [|intros ?] ].
Qed.

(** X23. For every arithmetic, check on two vectors of one dimension (all
    coordinates assigned), and check on two doubles, only appends to the
    stream, returns 1 or 0, and the verdict it prints agrees with what it
    returns: the appended items end with "YES", endl, endl when it returns 1
    and with "NO", endl, endl when it returns 0. *)
Theorem check_prints_its_verdict {N} (cout : ostream) (val ref : Vector D N)
    xs ys (x y : D) :
  holds val xs → holds ref ys →
  (∃ items r, check cout val ref = Ok (cout ++ items ++
       [Str (if (r =? 1)%Z then "YES" else "NO"); Endl; Endl], r) ∧
     (r = 1 ∨ r = 0)) ∧
  (∃ items r, check cout x y = Ok (cout ++ items ++
       [Str (if (r =? 1)%Z then "YES" else "NO"); Endl; Endl], r) ∧
     (r = 1 ∨ r = 0)).
Proof.
  intros Hval Href. split.
  - rewrite (check_Vector cout val ref xs ys Hval Href). unfold report.
    exists ([Str "YOUR CODE: "] ++ shown xs ++ [Endl; Str "REFERENCE: "]
              ++ shown ys ++ [Endl; Str "  CORRECT? "]),
           (Z.b2z (passes (distance xs ys))).
    destruct (passes (distance xs ys)); cbn [Z.b2z Z.eqb Pos.eqb];
      (split; [by rewrite <- !app_assoc | by (left + right)]).
  - rewrite (check_double cout x y). unfold report.
    exists ([Str "YOUR CODE: "; Num x; Endl; Str "REFERENCE: "; Num y;
             Endl; Str "  CORRECT? "]),
           (Z.b2z (passes (diff x y))).
    destruct (passes (diff x y)); cbn [Z.b2z Z.eqb Pos.eqb];
      (split; [reflexivity | by (left + right)]).
Qed.

End NoAssert.

Lemma check_prints_its_verdict_witness :
  ∃ items r, check [] exact_u exact_v = Ok ([] ++ items ++
      [Str (if (r =? 1)%Z then "YES" else "NO"); Endl; Endl], r) ∧
    (r = 1 ∨ r = 0).
Proof.
  apply (check_prints_its_verdict [] exact_u exact_v
           [1; 2; 3]%R [3; 1; 2]%R 1%R 2%R); split; reflexivity.
Defined.

(** * The identities when no operation rounds *)

Section ExactSteps.

Context {D : Type} `{Scalar D} `{Valued D}.

#[local] Open Scope Qc_scope.

Lemma exact2_true (op : D → D → D) (qop : Qc → Qc → Qc) (x y : D) :
  exact2 op qop x y = true →
  ∃ a b, value x = Some a ∧ value y = Some b ∧ value (op x y) = Some (qop a b).
Proof.
  unfold exact2. intros Hexact.
  destruct (value x) as [a|]; [|discriminate].
  destruct (value y) as [b|]; [|discriminate].
  destruct (value (op x y)) as [c|]; [|discriminate].
  apply Qc_eq_bool_correct in Hexact. subst c. by exists a, b.
Qed.

Lemma exact_zero_true : exact_zero = true → value (lit 0 0) = Some 0.
Proof.
  unfold exact_zero. destruct (value (lit 0 0)) as [q|]; [|discriminate].
  intros Hq. apply Qc_eq_bool_correct in Hq. by subst q.
Qed.

(* Turn every exactness hypothesis into the values of the operands and of
   the result, and name the value of a term once. *)
Ltac exact_values :=
  repeat match goal with
  | Hx : _ && _ = true |- _ => apply andb_prop in Hx as [? ?]
  | Hx : exact_minor _ _ _ _ = true |- _ => unfold exact_minor in Hx
  | Hx : exact_zero = true |- _ => apply exact_zero_true in Hx
  | Hx : exact2 _ _ _ _ = true |- _ =>
      apply exact2_true in Hx as (? & ? & ? & ? & ?)
  end;
  repeat match goal with
  | H1 : value ?t = Some ?a, H2 : value ?t = Some ?b |- _ =>
      rewrite H1 in H2; first [injection H2 as ?; subst | clear H2]
  end.

(** ** Subtraction followed by addition *)




(** ** Cross product, inner product and determinant *)

(** C7, as amended. For 3-vectors a, b (all coordinates assigned) such that
    every multiplication, subtraction and addition performed by cross(a,b),
    by inner(cross(a,b), a) and by inner(cross(a,b), b) is exact, the two
    inner products return doubles that denote 0. *)
Theorem cross_orthogonal_exact_steps (a b : Vector D 3) xs ys :
  holds a xs → holds b ys →
  exact_cross xs ys = true →
  exact_dot (cross_of xs ys) xs = true →
  exact_dot (cross_of xs ys) ys = true →
  ∃ p da db,
    cross a b = Ok p ∧ inner p a = Ok da ∧ inner p b = Ok db ∧
    value da = Some 0 ∧ value db = Some 0.
Proof.
  intros Ha Hb Hcross Hdota Hdotb.
  pose proof (holds_length a xs Ha) as Hxs.
  pose proof (holds_length b ys Hb) as Hys.
  pose proof (length_cross_of xs ys Hxs Hys) as Hlen.
  exists (mkVector (Some <$> cross_of xs ys)),
         (dot (cross_of xs ys) xs), (dot (cross_of xs ys) ys).
  split; [by apply cross_holds|].
  split; [apply inner_holds; [by apply holds_mkVector | assumption]|].
  split; [apply inner_holds; [by apply holds_mkVector | assumption]|].
  destruct xs as [|x0 [|x1 [|x2 [|]]]]; try discriminate Hxs.
  destruct ys as [|y0 [|y1 [|y2 [|]]]]; try discriminate Hys.
  unfold exact_dot, exact_cross, dot in *.
  cbn [cross_of zip zip_with exact_sum foldl fst snd] in *.
  exact_values.
  split;
    match goal with Hr : value ?t = Some _ |- value ?t = Some _ =>
      rewrite Hr end; f_equal; ring.
Qed.

(** C6, as amended. For 3-vectors a, b, c (all coordinates assigned) such
    that every multiplication, subtraction and addition performed by
    cross(a,b), by inner(cross(a,b), c) and by det(a,b,c) is exact,
    det(a,b,c) and inner(cross(a,b), c) return finite doubles that denote
    the same number. *)
Theorem det_triple_product_exact_steps (a b c : Vector D 3) xs ys zs :
  holds a xs → holds b ys → holds c zs →
  exact_cross xs ys = true →
  exact_dot (cross_of xs ys) zs = true →
  exact_det xs ys zs = true →
  ∃ p triple d,
    cross a b = Ok p ∧ inner p c = Ok triple ∧ det a b c = Ok d ∧
    same_number d triple.
Proof.
  intros Ha Hb Hc Hcross Hdot Hdet.
  pose proof (holds_length a xs Ha) as Hxs.
  pose proof (holds_length b ys Hb) as Hys.
  pose proof (holds_length c zs Hc) as Hzs.
  pose proof (length_cross_of xs ys Hxs Hys) as Hlen.
  exists (mkVector (Some <$> cross_of xs ys)),
         (dot (cross_of xs ys) zs), (det_of xs ys zs).
  split; [by apply cross_holds|].
  split; [apply inner_holds; [by apply holds_mkVector | assumption]|].
  split; [by apply det_holds|].
  destruct xs as [|x0 [|x1 [|x2 [|]]]]; try discriminate Hxs.
  destruct ys as [|y0 [|y1 [|y2 [|]]]]; try discriminate Hys.
  destruct zs as [|z0 [|z1 [|z2 [|]]]]; try discriminate Hzs.
  unfold exact_dot, exact_cross, exact_det, dot in *.
  cbn [cross_of det_of zip zip_with exact_sum foldl fst snd] in *.
  exact_values.
  eexists. split; [eassumption|].
  match goal with Hr : value ?t = Some _ |- value ?t = Some _ =>
    rewrite Hr end.
  f_equal. ring.
Qed.

(** ** Laws of addition, subtraction and scaling *)

Lemma plus_assoc_coordinates (xs ys zs : list D) :
  length xs = length ys → length xs = length zs →
  exact_zip dadd Qcplus xs ys = true →
  exact_zip dadd Qcplus (zip_with dadd xs ys) zs = true →
  exact_zip dadd Qcplus ys zs = true →
  exact_zip dadd Qcplus xs (zip_with dadd ys zs) = true →
  Forall2 same_number (zip_with dadd (zip_with dadd xs ys) zs)
                      (zip_with dadd xs (zip_with dadd ys zs)).
Proof.
  unfold exact_zip.
  revert ys zs. induction xs as [|x xs IH]; intros [|y ys] [|z zs] Hy Hz;
    try discriminate Hy; try discriminate Hz; cbn; [constructor|].
  intros H1 H2 H3 H4.
  apply andb_prop in H1 as [H1 H1s]. apply andb_prop in H2 as [H2 H2s].
  apply andb_prop in H3 as [H3 H3s]. apply andb_prop in H4 as [H4 H4s].
  constructor; [|apply IH; (by injection Hy) || (by injection Hz) || assumption].
  exact_values. eexists. split; [eassumption|].
  match goal with Hr : value ?t = Some _ |- value ?t = Some _ =>
    rewrite Hr end.
  f_equal. ring.
Qed.

(* (a + b) + c and a + (b + c) *)
Lemma operator_plus_associates_exact {N} (a b c : Vector D N)
    xs ys zs :
  holds a xs → holds b ys → holds c zs →
  exact_zip dadd Qcplus xs ys = true →
  exact_zip dadd Qcplus (zip_with dadd xs ys) zs = true →
  exact_zip dadd Qcplus ys zs = true →
  exact_zip dadd Qcplus xs (zip_with dadd ys zs) = true →
  ∃ l r ls rs,
    (s ← operator_plus a b; operator_plus s c) = Ok l ∧
    (t ← operator_plus b c; operator_plus a t) = Ok r ∧
    holds l ls ∧ holds r rs ∧ Forall2 same_number ls rs.
Proof.
  intros Ha Hb Hc H1 H2 H3 H4.
  pose proof (holds_length a xs Ha) as Hxs.
  pose proof (holds_length b ys Hb) as Hys.
  pose proof (holds_length c zs Hc) as Hzs.
  exists (mkVector (Some <$> zip_with dadd (zip_with dadd xs ys) zs)),
         (mkVector (Some <$> zip_with dadd xs (zip_with dadd ys zs))),
         (zip_with dadd (zip_with dadd xs ys) zs),
         (zip_with dadd xs (zip_with dadd ys zs)).
  split; [|split; [|split; [|split]]].
  - rewrite (operator_plus_holds a b xs ys Ha Hb), bind_Ok.
    apply operator_plus_holds; [by apply holds_zip_with | assumption].
  - rewrite (operator_plus_holds b c ys zs Hb Hc), bind_Ok.
    apply operator_plus_holds; [assumption | by apply holds_zip_with].
  - apply holds_zip_with; [rewrite length_zip_with; lia | assumption].
  - apply holds_zip_with; [assumption | rewrite length_zip_with; lia].
  - apply plus_assoc_coordinates; congruence.
Qed.

Lemma plus_minus_coordinates (xs ys : list D) :
  length xs = length ys →
  exact_zip dadd Qcplus xs ys = true →
  exact_zip dsub Qcminus (zip_with dadd xs ys) ys = true →
  Forall2 same_number (zip_with dsub (zip_with dadd xs ys) ys) xs.
Proof.
  unfold exact_zip.
  revert ys. induction xs as [|x xs IH]; intros [|y ys] Hlen;
    try discriminate Hlen; cbn; [constructor|].
  intros H1 H2.
  apply andb_prop in H1 as [H1 H1s]. apply andb_prop in H2 as [H2 H2s].
  constructor; [|apply IH; (by injection Hlen) || assumption].
  exact_values. eexists. split; [|eassumption].
  match goal with Hr : value ?t = Some _ |- value ?t = Some _ =>
    rewrite Hr end.
  f_equal. ring.
Qed.

Lemma scale_plus_coordinates (s : D) (xs ys : list D) :
  length xs = length ys →
  exact_zip dadd Qcplus xs ys = true →
  exact_scale s (zip_with dadd xs ys) = true →
  exact_scale s xs = true → exact_scale s ys = true →
  exact_zip dadd Qcplus (dmul s <$> xs) (dmul s <$> ys) = true →
  Forall2 same_number (dmul s <$> zip_with dadd xs ys)
                      (zip_with dadd (dmul s <$> xs) (dmul s <$> ys)).
Proof.
  unfold exact_zip, exact_scale.
  revert ys. induction xs as [|x xs IH]; intros [|y ys] Hlen;
    try discriminate Hlen; cbn; [constructor|].
  intros H1 H2 H3 H4 H5.
  apply andb_prop in H1 as [H1 H1s]. apply andb_prop in H2 as [H2 H2s].
  apply andb_prop in H3 as [H3 H3s]. apply andb_prop in H4 as [H4 H4s].
  apply andb_prop in H5 as [H5 H5s].
  constructor; [|apply IH; (by injection Hlen) || assumption].
  exact_values. eexists. split; [eassumption|].
  match goal with Hr : value ?t = Some _ |- value ?t = Some _ =>
    rewrite Hr end.
  f_equal. ring.
Qed.

Lemma scale_scale_coordinates (s t : D) (xs : list D) :
  exact_scale t xs = true → exact_scale s (dmul t <$> xs) = true →
  exact2 dmul Qcmult s t = true → exact_scale (dmul s t) xs = true →
  Forall2 same_number (dmul s <$> (dmul t <$> xs)) (dmul (dmul s t) <$> xs).
Proof.
  unfold exact_scale. intros H1 H2 Hst H3.
  induction xs as [|x xs IH]; cbn in *; [constructor|].
  apply andb_prop in H1 as [H1 H1s]. apply andb_prop in H2 as [H2 H2s].
  apply andb_prop in H3 as [H3 H3s].
  constructor; [|by apply IH].
  exact_values. eexists. split; [eassumption|].
  match goal with Hr : value ?t = Some _ |- value ?t = Some _ =>
    rewrite Hr end.
  f_equal. ring.
Qed.

(** X8. For a vector a, scalars s, t and a vector b of the dimension of a
    (all coordinates assigned): when every coordinate operation involved is
    exact, s * (a + b) and s * a + s * b return vectors with numerically
    equal coordinates, and so do s * (t * a) and (s * t) * a. *)
Theorem scalar_multiplication_exact_steps {N} (s t : D) (a b : Vector D N)
    xs ys :
  holds a xs → holds b ys →
  (exact_zip dadd Qcplus xs ys = true →
   exact_scale s (zip_with dadd xs ys) = true →
   exact_scale s xs = true → exact_scale s ys = true →
   exact_zip dadd Qcplus (dmul s <$> xs) (dmul s <$> ys) = true →
   ∃ l r ls rs,
     (sum ← operator_plus a b; operator_times_left s sum) = Ok l ∧
     (p ← operator_times_left s a; q ← operator_times_left s b;
      operator_plus p q) = Ok r ∧
     holds l ls ∧ holds r rs ∧ Forall2 same_number ls rs) ∧
  (exact_scale t xs = true → exact_scale s (dmul t <$> xs) = true →
   exact2 dmul Qcmult s t = true → exact_scale (dmul s t) xs = true →
   ∃ l r ls rs,
     (p ← operator_times_left t a; operator_times_left s p) = Ok l ∧
     operator_times_left (dmul s t) a = Ok r ∧
     holds l ls ∧ holds r rs ∧ Forall2 same_number ls rs).
Proof.
  intros Ha Hb.
  pose proof (holds_length a xs Ha) as Hxs.
  pose proof (holds_length b ys Hb) as Hys.
  split.
  - intros H1 H2 H3 H4 H5.
    exists (mkVector (Some <$> (dmul s <$> zip_with dadd xs ys))),
           (mkVector (Some <$> zip_with dadd (dmul s <$> xs) (dmul s <$> ys))),
           (dmul s <$> zip_with dadd xs ys),
           (zip_with dadd (dmul s <$> xs) (dmul s <$> ys)).
    split; [|split; [|split; [|split]]].
    + rewrite (operator_plus_holds a b xs ys Ha Hb), bind_Ok.
      apply operator_times_left_holds. by apply holds_zip_with.
    + rewrite (operator_times_left_holds s a xs Ha), bind_Ok.
      rewrite (operator_times_left_holds s b ys Hb), bind_Ok.
      apply operator_plus_holds; by apply holds_fmap.
    + apply holds_fmap. rewrite length_zip_with. lia.
    + apply holds_zip_with; by rewrite length_fmap.
    + apply scale_plus_coordinates; (congruence || assumption).
  - intros H1 H2 H3 H4.
    exists (mkVector (Some <$> (dmul s <$> (dmul t <$> xs)))),
           (mkVector (Some <$> (dmul (dmul s t) <$> xs))),
           (dmul s <$> (dmul t <$> xs)), (dmul (dmul s t) <$> xs).
    split; [|split; [|split; [|split]]].
    + rewrite (operator_times_left_holds t a xs Ha), bind_Ok.
      apply operator_times_left_holds. by apply holds_fmap.
    + by apply operator_times_left_holds.
    + apply holds_fmap. by rewrite length_fmap.
    + by apply holds_fmap.
    + by apply scale_scale_coordinates.
Qed.

(* (a + b) - b and a *)
Lemma plus_then_minus_exact {N} (a b : Vector D N) xs ys :
  holds a xs → holds b ys →
  exact_zip dadd Qcplus xs ys = true →
  exact_zip dsub Qcminus (zip_with dadd xs ys) ys = true →
  ∃ sum difference rs,
    operator_plus a b = Ok sum ∧ operator_minus sum b = Ok difference ∧
    holds difference rs ∧ Forall2 same_number rs xs.
Proof.
  intros Ha Hb H1 H2.
  pose proof (holds_length a xs Ha) as Hxs.
  pose proof (holds_length b ys Hb) as Hys.
  exists (mkVector (Some <$> zip_with dadd xs ys)),
         (mkVector (Some <$> zip_with dsub (zip_with dadd xs ys) ys)),
         (zip_with dsub (zip_with dadd xs ys) ys).
  split; [by apply operator_plus_holds|].
  split; [apply operator_minus_holds; [by apply holds_zip_with | assumption]|].
  split.
  - apply holds_zip_with; [rewrite length_zip_with; lia | assumption].
  - apply plus_minus_coordinates; (congruence || assumption).
Qed.

(** ** Further identities of cross and det *)

Lemma denotes_true (x : D) (q : Qc) : denotes x q = true → value x = Some q.
Proof.
  unfold denotes. destruct (value x) as [a|]; [|discriminate].
  intros Ha. apply Qc_eq_bool_correct in Ha. by subst a.
Qed.

Ltac exact_3 xs Hxs :=
  destruct xs as [|? [|? [|? [|]]]]; try discriminate Hxs.

Ltac exact_result :=
  match goal with Hr : value ?t = Some _ |- value ?t = Some _ =>
    rewrite Hr end; f_equal; ring.

(** X14. For 3-vectors a, b (all coordinates assigned): when every step of
    cross(a,b) and of cross(b,a) is exact, the two return vectors whose
    coordinates are finite and denote opposite numbers; when every step of
    cross(a,a) is exact, every coordinate it returns denotes 0. *)
Theorem cross_anticommutative_exact_steps (a b : Vector D 3) xs ys :
  holds a xs → holds b ys →
  (exact_cross xs ys = true → exact_cross ys xs = true →
   ∃ p q ps qs, cross a b = Ok p ∧ cross b a = Ok q ∧
     holds p ps ∧ holds q qs ∧ Forall2 opposite_numbers ps qs) ∧
  (exact_cross xs xs = true →
   ∃ p ps, cross a a = Ok p ∧ holds p ps ∧
     Forall (λ x, value x = Some 0) ps).
Proof.
  intros Ha Hb.
  pose proof (holds_length a xs Ha) as Hxs.
  pose proof (holds_length b ys Hb) as Hys.
  split.
  - intros Hab Hba.
    exists (mkVector (Some <$> cross_of xs ys)),
           (mkVector (Some <$> cross_of ys xs)),
           (cross_of xs ys), (cross_of ys xs).
    split; [by apply cross_holds|]. split; [by apply cross_holds|].
    split; [apply holds_mkVector; by apply length_cross_of|].
    split; [apply holds_mkVector; by apply length_cross_of|].
    exact_3 xs Hxs. exact_3 ys Hys.
    unfold exact_cross in *. cbn [cross_of].
    exact_values.
    repeat constructor; (eexists; split; [eassumption|]); exact_result.
  - intros Haa.
    exists (mkVector (Some <$> cross_of xs xs)), (cross_of xs xs).
    split; [by apply cross_holds|].
    split; [apply holds_mkVector; by apply length_cross_of|].
    exact_3 xs Hxs.
    unfold exact_cross in *. cbn [cross_of].
    exact_values.
    repeat constructor; exact_result.
Qed.

(** X15. For 3-vectors a, b, c (all coordinates assigned): when every step
    of det(a,b,c), det(b,a,c) and det(b,c,a) is exact, det(b,a,c) denotes
    the opposite of the number det(a,b,c) denotes and det(b,c,a) denotes the
    same number; when every step of det(a,a,c) is exact, it denotes 0. *)
Theorem det_alternating_exact_steps (a b c : Vector D 3) xs ys zs :
  holds a xs → holds b ys → holds c zs →
  (exact_det xs ys zs = true → exact_det ys xs zs = true →
   exact_det ys zs xs = true →
   ∃ d swapped shifted,
     det a b c = Ok d ∧ det b a c = Ok swapped ∧ det b c a = Ok shifted ∧
     opposite_numbers d swapped ∧ same_number d shifted) ∧
  (exact_det xs xs zs = true →
   ∃ d, det a a c = Ok d ∧ value d = Some 0).
Proof.
  intros Ha Hb Hc.
  pose proof (holds_length a xs Ha) as Hxs.
  pose proof (holds_length b ys Hb) as Hys.
  pose proof (holds_length c zs Hc) as Hzs.
  split.
  - intros H1 H2 H3.
    exists (det_of xs ys zs), (det_of ys xs zs), (det_of ys zs xs).
    split; [by apply det_holds|]. split; [by apply det_holds|].
    split; [by apply det_holds|].
    exact_3 xs Hxs. exact_3 ys Hys. exact_3 zs Hzs.
    unfold exact_det in *. cbn [det_of].
    exact_values.
    split; (eexists; split; [eassumption|]); exact_result.
  - intros H1. exists (det_of xs xs zs).
    split; [by apply det_holds|].
    exact_3 xs Hxs. exact_3 zs Hzs.
    unfold exact_det in *. cbn [det_of].
    exact_values. exact_result.
Qed.

(** X17. Lagrange's identity when no operation rounds: for 3-vectors a, b
    (all coordinates assigned) such that every step of cross(a,b), of the
    inner product of cross(a,b) with itself, and of inner(a,a), inner(b,b)
    and inner(a,b) is exact, the numbers these inner products denote
    satisfy |a x b|^2 = (a.a)(b.b) - (a.b)^2. *)
Theorem cross_lagrange_exact_steps (a b : Vector D 3) xs ys :
  holds a xs → holds b ys →
  exact_cross xs ys = true →
  exact_dot (cross_of xs ys) (cross_of xs ys) = true →
  exact_dot xs xs = true → exact_dot ys ys = true → exact_dot xs ys = true →
  ∃ p pp aa bb ab qaa qbb qab,
    cross a b = Ok p ∧ inner p p = Ok pp ∧
    inner a a = Ok aa ∧ inner b b = Ok bb ∧ inner a b = Ok ab ∧
    value aa = Some qaa ∧ value bb = Some qbb ∧ value ab = Some qab ∧
    value pp = Some (qaa * qbb - qab * qab).
Proof.
  intros Ha Hb Hcross Hpp Haa Hbb Hab.
  pose proof (holds_length a xs Ha) as Hxs.
  pose proof (holds_length b ys Hb) as Hys.
  pose proof (length_cross_of xs ys Hxs Hys) as Hlen.
  exists (mkVector (Some <$> cross_of xs ys)),
         (dot (cross_of xs ys) (cross_of xs ys)),
         (dot xs xs), (dot ys ys), (dot xs ys).
  exact_3 xs Hxs. exact_3 ys Hys.
  unfold exact_dot, exact_cross, dot in *.
  cbn [cross_of zip zip_with exact_sum foldl fst snd] in *.
  exact_values.
  do 3 eexists.
  split; [exact (cross_holds a b _ _ Ha Hb)|].
  split; [exact (inner_holds _ _ _ _ (holds_mkVector _ Hlen)
                   (holds_mkVector _ Hlen))|].
  split; [exact (inner_holds a a _ _ Ha Ha)|].
  split; [exact (inner_holds b b _ _ Hb Hb)|].
  split; [exact (inner_holds a b _ _ Ha Hb)|].
  split; [eassumption|]. split; [eassumption|]. split; [eassumption|].
  exact_result.
Qed.

(* det on three axis-aligned vectors, o denoting 0 *)
Lemma det_axis_aligned_exact (x y z o : D) :
  denotes o 0 = true →
  exact_det [x; o; o] [o; y; o] [o; o; z] = true →
  ∃ qx qy qz, value x = Some qx ∧ value y = Some qy ∧ value z = Some qz ∧
    value (det_of [x; o; o] [o; y; o] [o; o; z]) = Some (qx * qy * qz).
Proof.
  intros Ho Hdet. apply denotes_true in Ho.
  unfold exact_det in *. cbn [det_of].
  exact_values.
  do 3 eexists.
  split; [eassumption|]. split; [eassumption|]. split; [eassumption|].
  exact_result.
Qed.

(* cross of the unit vector along z, o denoting 0 and i denoting 1, with
   (x,y,z) *)
Lemma cross_unit_z_exact (x y z o i : D) :
  denotes o 0 = true → denotes i 1 = true →
  exact_cross [o; o; i] [x; y; z] = true →
  ∃ qx qy, value x = Some qx ∧ value y = Some qy ∧
    Forall2 (λ r q, value r = Some q) (cross_of [o; o; i] [x; y; z])
            [- qy; qx; 0].
Proof.
  intros Ho Hi Hcross. apply denotes_true in Ho. apply denotes_true in Hi.
  unfold exact_cross in *. cbn [cross_of].
  exact_values.
  do 2 eexists.
  split; [eassumption|]. split; [eassumption|].
  repeat constructor; exact_result.
Qed.

(** ** Linearity of the inner product *)

Lemma inner_scale_coordinates (s : D) (qs : Qc) (xs ys : list D) :
  value s = Some qs →
  ∀ (acc1 acc2 : D) (q : Qc),
  value acc2 = Some q → value acc1 = Some (qs * q) →
  exact_scale s xs = true →
  exact_sum acc1 (zip (dmul s <$> xs) ys) = true →
  exact_sum acc2 (zip xs ys) = true →
  ∃ q', value (foldl (λ sum p, dadd sum (dmul p.1 p.2)) acc2 (zip xs ys))
          = Some q' ∧
        value (foldl (λ sum p, dadd sum (dmul p.1 p.2)) acc1
                 (zip (dmul s <$> xs) ys)) = Some (qs * q').
Proof.
  intros Hs. unfold exact_scale.
  revert ys. induction xs as [|x xs IH]; intros [|y ys] acc1 acc2 q H2 H1;
    cbn [fmap list_fmap zip zip_with foldl forallb exact_sum fst snd];
    intros Hscale Hsum1 Hsum2; try (by exists q).
  apply andb_prop in Hscale as [Hx Hscale].
  apply andb_prop in Hsum1 as [Hstep1 Hsum1].
  apply andb_prop in Hsum2 as [Hstep2 Hsum2].
  exact_values.
  eapply IH; [eassumption | | assumption | assumption | assumption].
  match goal with Hr : value ?t = Some _ |- value ?t = Some _ =>
    rewrite Hr end.
  f_equal. ring.
Qed.

(* inner(s * a, b) and s * inner(a, b) *)
Lemma inner_scale_exact {N} (s : D) (a b : Vector D N) xs ys :
  holds a xs → holds b ys →
  exact_scale s xs = true →
  exact_dot (dmul s <$> xs) ys = true → exact_dot xs ys = true →
  exact2 dmul Qcmult s (dot xs ys) = true →
  ∃ sa l r, operator_times_left s a = Ok sa ∧ inner sa b = Ok l ∧
    inner a b = Ok r ∧ same_number l (dmul s r).
Proof.
  intros Ha Hb Hscale Hl Hr Hmul.
  pose proof (holds_length a xs Ha) as Hxs.
  exists (mkVector (Some <$> (dmul s <$> xs))), (dot (dmul s <$> xs) ys),
         (dot xs ys).
  split; [by apply operator_times_left_holds|].
  split; [apply inner_holds; [by apply holds_fmap | assumption]|].
  split; [by apply inner_holds|].
  unfold exact_dot in *.
  apply andb_prop in Hl as [Hzero Hl]. apply andb_prop in Hr as [_ Hr].
  apply exact_zero_true in Hzero.
  apply exact2_true in Hmul as (qs & qd & Hs & Hd & Hsd).
  assert (value (lit 0 0) = Some (qs * 0)) as Hzeros
    by (rewrite Hzero; f_equal; ring).
  destruct (inner_scale_coordinates s qs xs ys Hs (lit 0 0) (lit 0 0) 0
              Hzero Hzeros Hscale Hl Hr)
    as (q' & Hq' & Hq).
  fold (dot xs ys) in Hq'. fold (dot (dmul s <$> xs) ys) in Hq.
  rewrite Hd in Hq'. injection Hq' as <-.
  exists (qs * qd). by split.
Qed.

Lemma inner_plus_coordinates (xs ys zs : list D) :
  length xs = length ys → length xs = length zs →
  ∀ (acc acc1 acc2 : D) (q1 q2 : Qc),
  value acc1 = Some q1 → value acc2 = Some q2 →
  value acc = Some (q1 + q2) →
  exact_zip dadd Qcplus xs ys = true →
  exact_sum acc (zip (zip_with dadd xs ys) zs) = true →
  exact_sum acc1 (zip xs zs) = true → exact_sum acc2 (zip ys zs) = true →
  ∃ q1' q2',
    value (foldl (λ sum p, dadd sum (dmul p.1 p.2)) acc1 (zip xs zs))
      = Some q1' ∧
    value (foldl (λ sum p, dadd sum (dmul p.1 p.2)) acc2 (zip ys zs))
      = Some q2' ∧
    value (foldl (λ sum p, dadd sum (dmul p.1 p.2)) acc
             (zip (zip_with dadd xs ys) zs)) = Some (q1' + q2').
Proof.
  unfold exact_zip.
  revert ys zs. induction xs as [|x xs IH]; intros [|y ys] [|z zs] Hy Hz;
    try discriminate Hy; try discriminate Hz;
    intros acc acc1 acc2 q1 q2 H1 H2 Hacc;
    cbn [zip zip_with foldl forallb exact_sum fst snd];
    intros Hplus Hsum Hsum1 Hsum2; [by exists q1, q2|].
  apply andb_prop in Hplus as [Hstep Hplus].
  apply andb_prop in Hsum as [Hstep0 Hsum].
  apply andb_prop in Hsum1 as [Hstep1 Hsum1].
  apply andb_prop in Hsum2 as [Hstep2 Hsum2].
  exact_values.
  eapply (IH ys zs); try eassumption; [by injection Hy | by injection Hz |].
  match goal with Hr : value ?t = Some _ |- value ?t = Some _ =>
    rewrite Hr end.
  f_equal. ring.
Qed.

(* inner(a + b, c) and inner(a, c) + inner(b, c) *)
Lemma inner_plus_exact {N} (a b c : Vector D N) xs ys zs :
  holds a xs → holds b ys → holds c zs →
  exact_zip dadd Qcplus xs ys = true →
  exact_dot (zip_with dadd xs ys) zs = true →
  exact_dot xs zs = true → exact_dot ys zs = true →
  exact2 dadd Qcplus (dot xs zs) (dot ys zs) = true →
  ∃ sum l r1 r2, operator_plus a b = Ok sum ∧ inner sum c = Ok l ∧
    inner a c = Ok r1 ∧ inner b c = Ok r2 ∧ same_number l (dadd r1 r2).
Proof.
  intros Ha Hb Hc Hplus Hl Hr1 Hr2 Hadd.
  pose proof (holds_length a xs Ha) as Hxs.
  pose proof (holds_length b ys Hb) as Hys.
  pose proof (holds_length c zs Hc) as Hzs.
  exists (mkVector (Some <$> zip_with dadd xs ys)),
         (dot (zip_with dadd xs ys) zs), (dot xs zs), (dot ys zs).
  split; [by apply operator_plus_holds|].
  split; [apply inner_holds; [by apply holds_zip_with | assumption]|].
  split; [by apply inner_holds|]. split; [by apply inner_holds|].
  unfold exact_dot in *.
  apply andb_prop in Hl as [Hzero Hl]. apply andb_prop in Hr1 as [_ Hr1].
  apply andb_prop in Hr2 as [_ Hr2].
  apply exact_zero_true in Hzero.
  apply exact2_true in Hadd as (q1 & q2 & Hd1 & Hd2 & Hsum).
  assert (value (lit 0 0) = Some (0 + 0)) as Hzeros
    by (rewrite Hzero; f_equal; ring).
  destruct (inner_plus_coordinates xs ys zs ltac:(congruence) ltac:(congruence)
              (lit 0 0) (lit 0 0) (lit 0 0) 0 0 Hzero Hzero Hzeros
              Hplus Hl Hr1 Hr2)
    as (q1' & q2' & Hq1 & Hq2 & Hq).
  fold (dot xs zs) in Hq1. fold (dot ys zs) in Hq2.
  fold (dot (zip_with dadd xs ys) zs) in Hq.
  rewrite Hd1 in Hq1. injection Hq1 as <-.
  rewrite Hd2 in Hq2. injection Hq2 as <-.
  exists (q1 + q2). by split.
Qed.

End ExactSteps.

(** * The laws that hold for every double *)

Section Binary64.

(** ** The operations on decoded doubles *)

Lemma dadd_spec (x y : float) :
  Prim2SF (dadd x y) = SFadd prec emax (Prim2SF x) (Prim2SF y).
Proof. exact (add_spec x y). Qed.

Lemma dsub_spec (x y : float) :
  Prim2SF (dsub x y) = SFsub prec emax (Prim2SF x) (Prim2SF y).
Proof. exact (sub_spec x y). Qed.

Lemma dmul_spec (x y : float) :
  Prim2SF (dmul x y) = SFmul prec emax (Prim2SF x) (Prim2SF y).
Proof. exact (mul_spec x y). Qed.

Lemma dsqrt_spec (x : float) :
  Prim2SF (dsqrt x) = SFsqrt prec emax (Prim2SF x).
Proof. exact (sqrt_spec x). Qed.

Lemma dfabs_spec (x : float) : Prim2SF (dfabs x) = SFabs (Prim2SF x).
Proof. exact (abs_spec x). Qed.

Lemma dlt_spec (x y : float) : dlt x y = SFltb (Prim2SF x) (Prim2SF y).
Proof. exact (ltb_spec x y). Qed.

Lemma SFadd_comm (x y : spec_float) :
  SFadd prec emax x y = SFadd prec emax y x.
Proof.
  destruct x as [[]|[]| |sx mx ex], y as [[]|[]| |sy my ey]; try reflexivity.
  cbn [SFadd]. by rewrite Z.min_comm, Z.add_comm.
Qed.

Lemma SFmul_comm (x y : spec_float) :
  SFmul prec emax x y = SFmul prec emax y x.
Proof.
  destruct x as [sx|sx| |sx mx ex], y as [sy|sy| |sy my ey]; cbn [SFmul];
    try reflexivity; try (by rewrite xorb_comm).
  by rewrite xorb_comm, Pos.mul_comm, Z.add_comm.
Qed.

Lemma dadd_comm (x y : float) : dadd x y = dadd y x.
Proof. apply Prim2SF_inj. rewrite !dadd_spec. apply SFadd_comm. Qed.

Lemma dmul_comm (x y : float) : dmul x y = dmul y x.
Proof. apply Prim2SF_inj. rewrite !dmul_spec. apply SFmul_comm. Qed.

(** ** Rounding keeps the sign *)

Lemma SFabs_binary_round_aux s m e l :
  SFabs (binary_round_aux prec emax s m e l)
  = binary_round_aux prec emax false m e l.
Proof.
  unfold binary_round_aux.
  destruct (shr_fexp prec emax m e l) as [mrs' e'].
  destruct (shr_fexp prec emax _ e' loc_Exact) as [mrs'' e''].
  destruct (shr_m mrs'') as [|p|p]; [reflexivity| |reflexivity].
  by destruct (e'' <=? emax - prec).
Qed.

Lemma SFabs_binary_round s m e :
  SFabs (binary_round prec emax s m e) = binary_round prec emax false m e.
Proof.
  unfold binary_round.
  destruct (shl_align m e _) as [mz ez]. apply SFabs_binary_round_aux.
Qed.

Lemma SFabs_binary_normalize_opp z e :
  SFabs (binary_normalize prec emax (- z) e false)
  = SFabs (binary_normalize prec emax z e false).
Proof.
  destruct z as [|p|p]; [reflexivity| |];
    change (- Z.pos p) with (Z.neg p); change (- Z.neg p) with (Z.pos p);
    unfold binary_normalize; by rewrite !SFabs_binary_round.
Qed.

Lemma SFabs_sub_comm (x y : spec_float) :
  SFabs (SFsub prec emax x y) = SFabs (SFsub prec emax y x).
Proof.
  destruct x as [[]|[]| |sx mx ex], y as [[]|[]| |sy my ey]; try reflexivity.
  cbn [SFsub]. rewrite (Z.min_comm ey ex).
  rewrite <- SFabs_binary_normalize_opp. f_equal. f_equal. lia.
Qed.

Lemma diff_comm (x y : float) : diff x y = diff y x.
Proof.
  unfold diff. apply Prim2SF_inj. rewrite !dfabs_spec, !dsub_spec.
  apply SFabs_sub_comm.
Qed.

Lemma sign_clear_abs (x : spec_float) : sign_clear (SFabs x) = true.
Proof. by destruct x. Qed.

Lemma sign_clear_binary_round_aux m e l :
  sign_clear (binary_round_aux prec emax false m e l) = true.
Proof. rewrite <- (SFabs_binary_round_aux false). apply sign_clear_abs. Qed.

Lemma sign_clear_binary_round m e :
  sign_clear (binary_round prec emax false m e) = true.
Proof. rewrite <- (SFabs_binary_round false). apply sign_clear_abs. Qed.

Lemma sign_clear_square (x : spec_float) :
  sign_clear (SFmul prec emax x x) = true.
Proof.
  destruct x as [[]|[]| |[] m e]; try reflexivity;
    apply sign_clear_binary_round_aux.
Qed.

Lemma sign_clear_add (x y : spec_float) :
  sign_clear x = true → sign_clear y = true →
  sign_clear (SFadd prec emax x y) = true.
Proof.
  destruct x as [[]|[]| |[] mx ex], y as [[]|[]| |[] my ey];
    try discriminate; try reflexivity.
  intros _ _. cbn [SFadd cond_Zopp]. apply sign_clear_binary_round.
Qed.

Lemma sign_clear_sqrt (x : spec_float) :
  sign_clear x = true → sign_clear (SFsqrt prec emax x) = true.
Proof.
  destruct x as [[]|[]| |[] m e]; try discriminate; try reflexivity.
  intros _. cbn [SFsqrt].
  destruct (SFsqrt_core_binary prec emax (Z.pos m) e) as [[mz ez] lz].
  apply sign_clear_binary_round_aux.
Qed.

Lemma sign_clear_not_less (x : float) :
  sign_clear (Prim2SF x) = true → dlt x (lit 0 0) = false.
Proof.
  rewrite dlt_spec. change (Prim2SF (lit 0 0)) with (S754_zero false).
  by destruct (Prim2SF x) as [[]|[]| |[] m e].
Qed.

(** ** Sums of squares and of distances *)

Lemma sign_clear_squares (xs : list float) (acc : float) :
  sign_clear (Prim2SF acc) = true →
  sign_clear (Prim2SF (foldl (λ sum p, dadd sum (dmul p.1 p.2)) acc
                         (zip xs xs))) = true.
Proof.
  revert acc. induction xs as [|x xs IH]; intros acc Hacc; [assumption|].
  cbn [zip zip_with foldl fst snd]. apply IH.
  rewrite dadd_spec, dmul_spec.
  apply sign_clear_add; [assumption | apply sign_clear_square].
Qed.

Lemma sign_clear_distances (l : list (float * float)) (acc : float) :
  sign_clear (Prim2SF acc) = true →
  sign_clear (Prim2SF (foldl (λ sum p, dadd sum (diff p.1 p.2)) acc l)) = true.
Proof.
  revert acc. induction l as [|p l IH]; intros acc Hacc; [assumption|].
  cbn [foldl]. apply IH. unfold diff.
  rewrite dadd_spec, dfabs_spec.
  apply sign_clear_add; [assumption | apply sign_clear_abs].
Qed.

Lemma dot_comm (xs ys : list float) : dot xs ys = dot ys xs.
Proof.
  unfold dot. generalize (lit (D := float) 0 0).
  revert ys. induction xs as [|x xs IH]; intros [|y ys] acc; try reflexivity.
  cbn [zip zip_with foldl fst snd]. rewrite (dmul_comm y x). apply IH.
Qed.

Lemma distance_comm (xs ys : list float) : distance xs ys = distance ys xs.
Proof.
  unfold distance. generalize (lit (D := float) 0 0).
  revert ys. induction xs as [|x xs IH]; intros [|y ys] acc; try reflexivity.
  cbn [zip zip_with foldl fst snd]. rewrite (diff_comm y x). apply IH.
Qed.

Lemma zip_with_dadd_comm (xs ys : list float) :
  zip_with dadd xs ys = zip_with dadd ys xs.
Proof.
  revert ys. induction xs as [|x xs IH]; intros [|y ys]; try reflexivity.
  cbn [zip_with]. by rewrite (dadd_comm x y), IH.
Qed.

(** ** A double minus itself *)

Lemma SFsub_diag (x : spec_float) :
  SFsub prec emax x x
  = match x with
    | S754_zero _ | S754_finite _ _ _ => S754_zero false
    | _ => S754_nan
    end.
Proof.
  destruct x as [[]|[]| |s m e]; try reflexivity.
  cbn [SFsub]. by rewrite Z.sub_diag.
Qed.

Lemma dsub_diag (x : float) : finite x = true → dsub x x = 0%float.
Proof.
  unfold finite, value, binary64_value, float_value. intros Hx.
  apply Prim2SF_inj. rewrite dsub_spec, SFsub_diag.
  by destruct (Prim2SF x).
Qed.

Lemma diff_diag (x : float) :
  Prim2SF (diff x x) = if finite x then S754_zero false else S754_nan.
Proof.
  unfold diff, finite, value, binary64_value, float_value.
  rewrite dfabs_spec, dsub_spec, SFsub_diag.
  by destruct (Prim2SF x).
Qed.

Lemma distance_diag_from (xs : list float) (acc : float) :
  Prim2SF acc = S754_zero false ∨ Prim2SF acc = S754_nan →
  Prim2SF (foldl (λ sum p, dadd sum (diff p.1 p.2)) acc (zip xs xs))
  = if forallb finite xs then Prim2SF acc else S754_nan.
Proof.
  revert acc. induction xs as [|x xs IH]; intros acc Hacc; [reflexivity|].
  cbn [zip zip_with foldl forallb fst snd].
  rewrite IH; rewrite dadd_spec, diff_diag.
  - destruct Hacc as [-> | ->], (finite x), (forallb finite xs); reflexivity.
  - destruct Hacc as [-> | ->], (finite x); auto.
Qed.

Lemma distance_diag (xs : list float) :
  distance xs xs
  = if forallb finite xs then 0%float else PrimFloat.nan.
Proof.
  apply Prim2SF_inj. unfold distance.
  rewrite distance_diag_from by (by left).
  by destruct (forallb finite xs).
Qed.

(** ** Addition, subtraction and the inner product *)

Lemma zip_with_dsub_diag (xs : list float) :
  forallb finite xs = true →
  zip_with dsub xs xs = replicate (length xs) 0%float.
Proof.
  induction xs as [|x xs IH]; [reflexivity|].
  cbn [forallb zip_with length replicate]. intros [Hx Hxs]%andb_prop.
  by rewrite (dsub_diag x Hx), IH.
Qed.

(** X7. In binary64, for vectors a, b, c of the same dimension N (all
    coordinates assigned): a + b and b + a return the same vector, whatever
    the coordinates are (the NaNs taken as one value, without payload); and
    when every coordinate addition of a + b, (a + b) + c, b + c and
    a + (b + c) is exact, (a + b) + c and a + (b + c) return vectors whose
    coordinates are finite and denote the same numbers. *)
Theorem operator_plus_commutes_associates_binary64 {N}
    (a b c : Vector float N) xs ys zs :
  holds a xs → holds b ys → holds c zs →
  (∃ s, operator_plus a b = Ok s ∧ operator_plus b a = Ok s) ∧
  (exact_zip dadd Qcplus xs ys = true →
   exact_zip dadd Qcplus (zip_with dadd xs ys) zs = true →
   exact_zip dadd Qcplus ys zs = true →
   exact_zip dadd Qcplus xs (zip_with dadd ys zs) = true →
   ∃ l r ls rs,
     (s ← operator_plus a b; operator_plus s c) = Ok l ∧
     (t ← operator_plus b c; operator_plus a t) = Ok r ∧
     holds l ls ∧ holds r rs ∧ Forall2 same_number ls rs).
Proof.
  intros Ha Hb Hc. split.
  - exists (mkVector (Some <$> zip_with dadd xs ys)).
    split; [by apply operator_plus_holds|].
    rewrite (zip_with_dadd_comm xs ys). by apply operator_plus_holds.
  - by apply operator_plus_associates_exact.
Qed.

(** X9. In binary64, for vectors a, b of the same dimension N (all
    coordinates assigned): when every coordinate of a is finite, a - a
    returns the vector whose N coordinates are +0; and when every
    coordinate addition of a + b and every coordinate subtraction of
    (a + b) - b is exact, (a + b) - b returns a vector whose coordinates
    are finite and denote the same numbers as those of a. *)
Theorem operator_minus_undoes_binary64 {N} (a b : Vector float N) xs ys :
  holds a xs → holds b ys →
  (forallb finite xs = true →
   ∃ r, operator_minus a a = Ok r ∧ holds r (replicate N 0%float)) ∧
  (exact_zip dadd Qcplus xs ys = true →
   exact_zip dsub Qcminus (zip_with dadd xs ys) ys = true →
   ∃ sum difference rs,
     operator_plus a b = Ok sum ∧ operator_minus sum b = Ok difference ∧
     holds difference rs ∧ Forall2 same_number rs xs).
Proof.
  intros Ha Hb. split.
  - intros Hfinite.
    pose proof (holds_length a xs Ha) as Hxs.
    exists (mkVector (Some <$> zip_with dsub xs xs)).
    split; [by apply operator_minus_holds|].
    rewrite (zip_with_dsub_diag xs Hfinite), Hxs.
    apply holds_mkVector, length_replicate.
  - by apply plus_then_minus_exact.
Qed.

(** X10. In binary64, for vectors a, b, c of the same dimension N (all
    coordinates assigned) and a double s: inner(a,b) and inner(b,a) return
    the same double, whatever the coordinates are (the NaNs taken as one
    value, without payload); when every step involved
    is exact, inner(s*a, b) denotes the same number as s * inner(a,b), and
    inner(a+b, c) the same number as inner(a,c) + inner(b,c). *)
Theorem inner_symmetric_linear_binary64 {N} (s : float)
    (a b c : Vector float N) xs ys zs :
  holds a xs → holds b ys → holds c zs →
  (∃ d, inner a b = Ok d ∧ inner b a = Ok d) ∧
  (exact_scale s xs = true →
   exact_dot (dmul s <$> xs) ys = true → exact_dot xs ys = true →
   exact2 dmul Qcmult s (dot xs ys) = true →
   ∃ sa l r, operator_times_left s a = Ok sa ∧ inner sa b = Ok l ∧
     inner a b = Ok r ∧ same_number l (dmul s r)) ∧
  (exact_zip dadd Qcplus xs ys = true →
   exact_dot (zip_with dadd xs ys) zs = true →
   exact_dot xs zs = true → exact_dot ys zs = true →
   exact2 dadd Qcplus (dot xs zs) (dot ys zs) = true →
   ∃ sum l r1 r2, operator_plus a b = Ok sum ∧ inner sum c = Ok l ∧
     inner a c = Ok r1 ∧ inner b c = Ok r2 ∧ same_number l (dadd r1 r2)).
Proof.
  intros Ha Hb Hc. split; [|split].
  - exists (dot xs ys). split; [by apply inner_holds|].
    rewrite (dot_comm xs ys). by apply inner_holds.
  - by apply inner_scale_exact.
  - by apply inner_plus_exact.
Qed.

(** ** Norm and distance *)

(** X11. In binary64, for every vector v (all coordinates assigned,
    whatever they are), norm(v) and inner(v,v) return doubles that do not
    compare less than 0. *)
Theorem norm_not_negative_binary64 {N} (v : Vector float N) xs :
  holds v xs →
  ∃ n s, norm v = Ok n ∧ inner v v = Ok s ∧
    dlt n (lit 0 0) = false ∧ dlt s (lit 0 0) = false.
Proof.
  intros Hv. exists (dsqrt (dot xs xs)), (dot xs xs).
  split; [by apply norm_holds|]. split; [by apply inner_holds|].
  assert (sign_clear (Prim2SF (dot xs xs)) = true) as Hsum
    by (by apply sign_clear_squares).
  split; apply sign_clear_not_less; [|assumption].
  rewrite dsqrt_spec. by apply sign_clear_sqrt.
Qed.

(** X19. In binary64, for all doubles x, y and all vectors a, b of the same
    dimension N (all coordinates assigned, whatever they are; the NaNs
    taken as one value, without payload): diff(x,y) and diff(y,x) are the
    same double, which does not compare less than 0;
    diff(a,b) and diff(b,a) return the same double, which does not compare
    less than 0. *)
Theorem diff_symmetric_binary64 {N} (x y : float) (a b : Vector float N)
    xs ys :
  holds a xs → holds b ys →
  diff x y = diff y x ∧ dlt (diff x y) (lit 0 0) = false ∧
  ∃ d, diff_Vector a b = Ok d ∧ diff_Vector b a = Ok d ∧
    dlt d (lit 0 0) = false.
Proof.
  intros Ha Hb. split; [apply diff_comm|]. split.
  - apply sign_clear_not_less. unfold diff. rewrite dfabs_spec.
    apply sign_clear_abs.
  - exists (distance xs ys). split; [by apply diff_Vector_holds|].
    split; [rewrite (distance_comm xs ys); by apply diff_Vector_holds|].
    apply sign_clear_not_less. by apply sign_clear_distances.
Qed.

(** X20. In binary64, check of a vector (all coordinates assigned) against
    itself only appends to the stream, and returns 1 when every coordinate
    is finite and 0 when some coordinate is an infinity or a NaN. *)
Theorem check_against_itself_binary64 {N} (cout : ostream)
    (v : Vector float N) xs :
  holds v xs →
  ∃ out, check cout v v
         = Ok (cout ++ out, if forallb finite xs then 1 else 0).
Proof.
  intros Hv. rewrite (check_Vector cout v v xs xs Hv Hv).
  eexists. f_equal. f_equal.
  rewrite distance_diag. by destruct (forallb finite xs).
Qed.

(** ** The examples in the comments above cross and det *)

(** X16. In binary64, for doubles x, y, z: when every step of
    det((x,0,0), (0,y,0), (0,0,z)) is exact, it returns a double that
    denotes the product of the numbers x, y and z denote; and on the example
    in the comment above det, e1 = (1,0,0), e2 = (0,1,0), e3 = (0,0,2), det
    returns 2, not the 1 the comment announces. *)
Theorem det_axis_aligned_binary64 (x y z : float) :
  (exact_det [x; 0; 0]%float [0; y; 0]%float [0; 0; z]%float = true →
   ∃ d qx qy qz,
     det (mkVector [Some x; Some 0%float; Some 0%float])
         (mkVector [Some 0%float; Some y; Some 0%float])
         (mkVector [Some 0%float; Some 0%float; Some z]) = Ok d ∧
     value x = Some qx ∧ value y = Some qy ∧ value z = Some qz ∧
     value d = Some (qx * qy * qz)%Qc) ∧
  det comment_e1 comment_e2 comment_e3 = Ok 2%float.
Proof.
  split; [|reflexivity].
  intros Hexact.
  destruct (det_axis_aligned_exact x y z 0%float) as (qx & qy & qz & H);
    [reflexivity | assumption |].
  exists (det_of [x; 0; 0]%float [0; y; 0]%float [0; 0; z]%float), qx, qy, qz.
  split; [|exact H].
  by apply det_holds.
Qed.

(** X18. In binary64, for doubles x, y, z: when every step of
    cross((0,0,1), (x,y,z)) is exact, it returns a vector whose coordinates
    denote -y, x and 0; and on the example in the comment above cross,
    N = (0,0,1), u = (2,3,0), cross(N,u) returns (-3,2,0), not the (3,-2,0)
    the comment announces. *)
Theorem cross_unit_z_binary64 (x y z : float) :
  (exact_cross [0; 0; 1]%float [x; y; z] = true →
   ∃ p ps qx qy,
     cross comment_N (mkVector [Some x; Some y; Some z]) = Ok p ∧
     holds p ps ∧ value x = Some qx ∧ value y = Some qy ∧
     Forall2 (λ r q, value r = Some q) ps [- qy; qx; 0]%Qc) ∧
  cross comment_N comment_u = Ok (mkVector [Some (-3); Some 2; Some 0]%float).
Proof.
  split; [|reflexivity].
  intros Hexact.
  destruct (cross_unit_z_exact x y z 0%float 1%float)
    as (qx & qy & Hx & Hy & Hcoords); [reflexivity | reflexivity | assumption |].
  exists (mkVector (Some <$> cross_of [0; 0; 1]%float [x; y; z])),
         (cross_of [0; 0; 1]%float [x; y; z]), qx, qy.
  split; [by apply cross_holds|]. by split.
Qed.

End Binary64.

(** * The identities without rounding, at the quiz constants *)


Lemma cross_orthogonal_exact_steps_witness :
  ∃ p da db,
    cross quiz_u quiz_v = Ok p ∧ inner p quiz_u = Ok da ∧
    inner p quiz_v = Ok db ∧
    value da = Some (Q2Qc 0) ∧ value db = Some (Q2Qc 0).
Proof.
  apply (cross_orthogonal_exact_steps quiz_u quiz_v [1; 2; 3]%float [3; 1; 2]%float).
  - split; reflexivity.
  - split; reflexivity.
  - vm_compute. reflexivity.
  - vm_compute. reflexivity.
  - vm_compute. reflexivity.
Defined.

Lemma det_triple_product_exact_steps_witness :
  ∃ p triple d,
    cross quiz_u quiz_v = Ok p ∧ inner p quiz_w = Ok triple ∧
    det quiz_u quiz_v quiz_w = Ok d ∧ same_number d triple.
Proof.
  apply (det_triple_product_exact_steps quiz_u quiz_v quiz_w
           [1; 2; 3]%float [3; 1; 2]%float [5; 3; 7]%float).
  - split; reflexivity.
  - split; reflexivity.
  - split; reflexivity.
  - vm_compute. reflexivity.
  - vm_compute. reflexivity.
  - vm_compute. reflexivity.
Defined.

(* On the vectors of the rounding examples some step is not exact. *)
Example rounding_steps_are_not_exact :
  exact_zip dsub Qcminus [1%float] [18014398509481984%float] = false ∧
  exact_cross [0; 1; 1]%float [1; -1; 9007199254740992]%float = false ∧
  exact_dot (cross_of [1; 1; 0]%float [0; 1; 1]%float)
            [9007199254740992; -1; 1]%float = false.
Proof. repeat split; vm_compute; reflexivity. Qed.

Lemma scalar_multiplication_exact_steps_witness :
  (∃ l r ls rs,
     (sum ← operator_plus quiz_u quiz_v; operator_times_left 4%float sum)
       = Ok l ∧
     (p ← operator_times_left 4%float quiz_u;
      q ← operator_times_left 4%float quiz_v; operator_plus p q) = Ok r ∧
     holds l ls ∧ holds r rs ∧ Forall2 same_number ls rs) ∧
  (∃ l r ls rs,
     (p ← operator_times_left 2%float quiz_u; operator_times_left 4%float p)
       = Ok l ∧
     operator_times_left (dmul 4 2)%float quiz_u = Ok r ∧
     holds l ls ∧ holds r rs ∧ Forall2 same_number ls rs).
Proof.
  destruct (scalar_multiplication_exact_steps 4%float 2%float quiz_u quiz_v
              [1; 2; 3]%float [3; 1; 2]%float) as [Hplus Htimes];
    [split; reflexivity | split; reflexivity |].
  split; [apply Hplus | apply Htimes]; vm_compute; reflexivity.
Defined.

Lemma cross_anticommutative_exact_steps_witness :
  (∃ p q ps qs, cross quiz_u quiz_v = Ok p ∧ cross quiz_v quiz_u = Ok q ∧
     holds p ps ∧ holds q qs ∧ Forall2 opposite_numbers ps qs) ∧
  (∃ p ps, cross quiz_u quiz_u = Ok p ∧ holds p ps ∧
     Forall (λ x, value x = Some 0%Qc) ps).
Proof.
  destruct (cross_anticommutative_exact_steps quiz_u quiz_v
              [1; 2; 3]%float [3; 1; 2]%float) as [Hswap Hsame];
    [split; reflexivity | split; reflexivity |].
  split; [apply Hswap | apply Hsame]; vm_compute; reflexivity.
Defined.

Lemma det_alternating_exact_steps_witness :
  (∃ d swapped shifted,
     det quiz_u quiz_v quiz_w = Ok d ∧ det quiz_v quiz_u quiz_w = Ok swapped ∧
     det quiz_v quiz_w quiz_u = Ok shifted ∧
     opposite_numbers d swapped ∧ same_number d shifted) ∧
  (∃ d, det quiz_u quiz_u quiz_w = Ok d ∧ value d = Some 0%Qc).
Proof.
  destruct (det_alternating_exact_steps quiz_u quiz_v quiz_w
              [1; 2; 3]%float [3; 1; 2]%float [5; 3; 7]%float)
    as [Hswap Hsame];
    [split; reflexivity | split; reflexivity | split; reflexivity |].
  split; [apply Hswap | apply Hsame]; vm_compute; reflexivity.
Defined.

Lemma cross_lagrange_exact_steps_witness :
  ∃ p pp aa bb ab qaa qbb qab,
    cross quiz_u quiz_v = Ok p ∧ inner p p = Ok pp ∧
    inner quiz_u quiz_u = Ok aa ∧ inner quiz_v quiz_v = Ok bb ∧
    inner quiz_u quiz_v = Ok ab ∧
    value aa = Some qaa ∧ value bb = Some qbb ∧ value ab = Some qab ∧
    value pp = Some (qaa * qbb - qab * qab)%Qc.
Proof.
  apply (cross_lagrange_exact_steps quiz_u quiz_v
           [1; 2; 3]%float [3; 1; 2]%float);
    [split; reflexivity | split; reflexivity | vm_compute; reflexivity ..].
Defined.

(** * The laws of binary64 at the quiz constants *)

Lemma operator_plus_commutes_associates_binary64_witness :
  (∃ s, operator_plus quiz_u quiz_v = Ok s ∧ operator_plus quiz_v quiz_u = Ok s) ∧
  (∃ l r ls rs,
     (s ← operator_plus quiz_u quiz_v; operator_plus s quiz_w) = Ok l ∧
     (t ← operator_plus quiz_v quiz_w; operator_plus quiz_u t) = Ok r ∧
     holds l ls ∧ holds r rs ∧ Forall2 same_number ls rs).
Proof.
  destruct (operator_plus_commutes_associates_binary64 quiz_u quiz_v quiz_w
              [1; 2; 3]%float [3; 1; 2]%float [5; 3; 7]%float)
    as [Hcomm Hassoc];
    [split; reflexivity | split; reflexivity | split; reflexivity |].
  split; [exact Hcomm | apply Hassoc; vm_compute; reflexivity].
Defined.

Lemma operator_minus_undoes_binary64_witness :
  (∃ r, operator_minus quiz_u quiz_u = Ok r ∧ holds r (replicate 3 0%float)) ∧
  (∃ sum difference rs,
     operator_plus quiz_u quiz_v = Ok sum ∧
     operator_minus sum quiz_v = Ok difference ∧
     holds difference rs ∧ Forall2 same_number rs [1; 2; 3]%float).
Proof.
  destruct (operator_minus_undoes_binary64 quiz_u quiz_v
              [1; 2; 3]%float [3; 1; 2]%float) as [Hself Hundo];
    [split; reflexivity | split; reflexivity |].
  split; [apply Hself | apply Hundo]; vm_compute; reflexivity.
Defined.

Lemma inner_symmetric_linear_binary64_witness :
  (∃ d, inner quiz_u quiz_v = Ok d ∧ inner quiz_v quiz_u = Ok d) ∧
  (∃ sa l r, operator_times_left 4%float quiz_u = Ok sa ∧
     inner sa quiz_v = Ok l ∧ inner quiz_u quiz_v = Ok r ∧
     same_number l (dmul 4%float r)) ∧
  (∃ sum l r1 r2, operator_plus quiz_u quiz_v = Ok sum ∧
     inner sum quiz_w = Ok l ∧ inner quiz_u quiz_w = Ok r1 ∧
     inner quiz_v quiz_w = Ok r2 ∧ same_number l (dadd r1 r2)).
Proof.
  destruct (inner_symmetric_linear_binary64 4%float quiz_u quiz_v quiz_w
              [1; 2; 3]%float [3; 1; 2]%float [5; 3; 7]%float)
    as (Hsym & Hscale & Hplus);
    [split; reflexivity | split; reflexivity | split; reflexivity |].
  split; [exact Hsym|].
  split; [apply Hscale | apply Hplus]; vm_compute; reflexivity.
Defined.

Lemma norm_not_negative_binary64_witness :
  ∃ n s, norm quiz_u = Ok n ∧ inner quiz_u quiz_u = Ok s ∧
    dlt n (lit 0 0) = false ∧ dlt s (lit 0 0) = false.
Proof.
  apply (norm_not_negative_binary64 quiz_u [1; 2; 3]%float).
  split; reflexivity.
Defined.

Lemma diff_symmetric_binary64_witness :
  diff 1%float 2%float = diff 2%float 1%float ∧
  dlt (diff 1%float 2%float) (lit 0 0) = false ∧
  ∃ d, diff_Vector quiz_u quiz_v = Ok d ∧ diff_Vector quiz_v quiz_u = Ok d ∧
    dlt d (lit 0 0) = false.
Proof.
  apply (diff_symmetric_binary64 1%float 2%float quiz_u quiz_v
           [1; 2; 3]%float [3; 1; 2]%float); split; reflexivity.
Defined.

Lemma check_against_itself_binary64_witness :
  ∃ out, check [] quiz_u quiz_u
         = Ok ([] ++ out, if forallb finite [1; 2; 3]%float then 1 else 0).
Proof.
  apply (check_against_itself_binary64 [] quiz_u [1; 2; 3]%float).
  split; reflexivity.
Defined.

Lemma det_axis_aligned_binary64_witness :
  ∃ d qx qy qz,
    det comment_e1 comment_e2 comment_e3 = Ok d ∧
    value 1%float = Some qx ∧ value 1%float = Some qy ∧
    value 2%float = Some qz ∧ value d = Some (qx * qy * qz)%Qc.
Proof.
  destruct (det_axis_aligned_binary64 1%float 1%float 2%float)
    as [Hexact _].
  apply Hexact. vm_compute. reflexivity.
Defined.

Lemma cross_unit_z_binary64_witness :
  ∃ p ps qx qy,
    cross comment_N comment_u = Ok p ∧ holds p ps ∧
    value 2%float = Some qx ∧ value 3%float = Some qy ∧
    Forall2 (λ r q, value r = Some q) ps [- qy; qx; 0]%Qc.
Proof.
  destruct (cross_unit_z_binary64 2%float 3%float 0%float) as [Hexact _].
  apply Hexact. vm_compute. reflexivity.
Defined.
